(** * Permission Analyzer: the usage-detection and de-duplication policy

    A shallow embedding of the page-context script (the interceptors and the
    debouncer, [notifyPermissionUsage] and the wrappers installed around the
    host capabilities) and of the background log store ([saveLog]).

    Conventions of the embedding.
    - A JavaScript number that holds a time in milliseconds or a watch id is
      an integer [Z]; [Date.now()] is an input of the function that reads it,
      one argument per read.
    - The [Map] [loggedEvents] is a [gmap string Z]; the [Set]
      [activeWatchers] is a [gset Z].
    - Mutable script state is passed explicitly: every handler takes the
      state before and returns the state after, together with what it made
      observable.
    - The asynchronous handlers of the background worker are given twice:
      in [Background] run to their end, and in [Async] suspended at each of
      their awaits, one storage call per step, so that handlers in flight
      interleave on the shared state. *)

From stdpp Require Import gmap strings list fin_maps.
From stdpp Require Import pretty.
From Stdlib Require Import ZArith Lia.

Open Scope Z_scope.

(** ** JavaScript values, as far as the wrappers inspect them

    Objects are opaque handles; an array holds the handles of its items
    (the [ClipboardItem]s of [clipboard.read]). *)

Inductive JSValue : Type :=
| JSUndefined
| JSNull
| JSBool (b : bool)
| JSNumber (n : Z)
| JSString (s : string)
| JSArray (items : list positive)
| JSObject (handle : positive).

(** [ToBoolean]: the test of [if (v)] and the left operand of [&&]. *)
Definition truthy (v : JSValue) : bool :=
  match v with
  | JSUndefined | JSNull => false
  | JSBool b => b
  | JSNumber n => negb (n =? 0)
  | JSString s => negb (String.eqb s "")
  | JSArray _ | JSObject _ => true
  end.

(** [v.length > 0] for a value that passed a truthiness test: strings and
    arrays have a length, on anything else the property reads [undefined]
    and the comparison is false. *)
Definition length_positive (v : JSValue) : bool :=
  match v with
  | JSString s => 0 <? Z.of_nat (String.length s)
  | JSArray items => 0 <? Z.of_nat (length items)
  | _ => false
  end.

(** How a call or a promise completes: with a value, or with a thrown value
    (a rejection reason). *)
Inductive Completion : Type :=
| Normal (v : JSValue)
| Abrupt (err : JSValue).

(** ** The debouncer *)

Definition DEBOUNCE_TIME : Z := 500.

(** The [detail] of the [PERMISSION_DETECTED] custom event. *)
Record Detail : Type := mkDetail {
  permissionType : string;
  action : string
}.

(** [action || 'accessed'] on a string. *)
Definition action_or_accessed (a : string) : string :=
  if String.eqb a "" then "accessed"%string else a.

(** [notifyPermissionUsage(permissionType, action)], with [now] the value
    [Date.now()] returns in it.  The result is the map afterwards and the
    events handed to [window.dispatchEvent]. *)
Definition notifyPermissionUsage (loggedEvents : gmap string Z)
    (permissionType action : string) (now : Z) : gmap string Z * list Detail :=
  let eventKey := (permissionType +:+ "-" +:+ action)%string in
  if match loggedEvents !! eventKey with
     | Some lastLogTime => now - lastLogTime <? DEBOUNCE_TIME
     | None => false
     end
  then (loggedEvents, [])
  else
    let loggedEvents := <[eventKey := now]> loggedEvents in
    let loggedEvents :=
      filter (λ kv : string * Z, ¬ (now - kv.2 > 5000)) loggedEvents in
    (loggedEvents, [mkDetail permissionType (action_or_accessed action)]).

(** ** Script state *)

(** The object [locationTracking].  Its field [MIN_LOG_INTERVAL] is never
    assigned, so it is the constant below. *)
Record LocationTracking : Type := mkLocationTracking {
  lastLogTime : Z;
  activeWatchers : gset Z;
  isUnloading : bool;
  lastVisibilityChange : Z
}.

Definition MIN_LOG_INTERVAL : Z := 5000.

(** Everything the script closes over: the debounce map, the location
    record, and one [callbackCount] cell per call of the [watchPosition]
    wrapper (the cell of the [n]-th call is the [n]-th element). *)
Record Page : Type := mkPage {
  loggedEvents : gmap string Z;
  locationTracking : LocationTracking;
  callbackCount : list Z
}.

Definition initialPage : Page :=
  mkPage ∅ (mkLocationTracking 0 ∅ false 0) [].

Definition set_loggedEvents (m : gmap string Z) (pg : Page) : Page :=
  mkPage m (locationTracking pg) (callbackCount pg).

Definition set_lastLogTime (t : Z) (pg : Page) : Page :=
  let lt := locationTracking pg in
  mkPage (loggedEvents pg)
    (mkLocationTracking t (activeWatchers lt) (isUnloading lt)
       (lastVisibilityChange lt))
    (callbackCount pg).

Definition set_activeWatchers (ws : gset Z) (pg : Page) : Page :=
  let lt := locationTracking pg in
  mkPage (loggedEvents pg)
    (mkLocationTracking (lastLogTime lt) ws (isUnloading lt)
       (lastVisibilityChange lt))
    (callbackCount pg).

Definition set_isUnloading (b : bool) (pg : Page) : Page :=
  let lt := locationTracking pg in
  mkPage (loggedEvents pg)
    (mkLocationTracking (lastLogTime lt) (activeWatchers lt) b
       (lastVisibilityChange lt))
    (callbackCount pg).

Definition set_lastVisibilityChange (t : Z) (pg : Page) : Page :=
  let lt := locationTracking pg in
  mkPage (loggedEvents pg)
    (mkLocationTracking (lastLogTime lt) (activeWatchers lt) (isUnloading lt) t)
    (callbackCount pg).

Definition set_callbackCount (cs : list Z) (pg : Page) : Page :=
  mkPage (loggedEvents pg) (locationTracking pg) cs.

(** ** What a handler makes observable *)

(** A raw signal: one call of [notifyPermissionUsage]. *)
Definition Signal : Type := (string * string)%type.

(** A callback of the page (a function value the page passed in), and a call
    of it with its argument. *)
Definition PageCallback : Type := positive.
Definition Invocation : Type := (PageCallback * JSValue)%type.

Record Output : Type := mkOutput {
  signals : list Signal;        (* calls of notifyPermissionUsage, in order *)
  dispatched : list Detail;     (* PERMISSION_DETECTED events, in order *)
  invoked : list Invocation     (* page callbacks called, in order *)
}.

Definition silent : Output := mkOutput [] [] [].

Definition out_app (o1 o2 : Output) : Output :=
  mkOutput (signals o1 ++ signals o2) (dispatched o1 ++ dispatched o2)
    (invoked o1 ++ invoked o2).

(** [if (cb) cb(arg)] *)
Definition call_if_present (cb : option PageCallback) (arg : JSValue)
    : Output :=
  match cb with
  | Some f => mkOutput [] [] [(f, arg)]
  | None => silent
  end.

(** A call of [notifyPermissionUsage] from a wrapper: the call is recorded as
    a raw signal, the map is threaded through the page state. *)
Definition notify (pg : Page) (permissionType action : string) (now : Z)
    : Page * Output :=
  let '(m, evs) :=
    notifyPermissionUsage (loggedEvents pg) permissionType action now in
  (set_loggedEvents m pg, mkOutput [(permissionType, action)] evs []).

(** ** Camera and microphone *)

(** The [constraints] argument of [getUserMedia], as far as it is read:
    [None] is a missing (falsy) argument. *)
Record MediaStreamConstraints : Type := mkConstraints {
  video : JSValue;
  audio : JSValue
}.

(** [constraints && constraints.video], and the same for audio. *)
Definition wants_video (constraints : option MediaStreamConstraints) : bool :=
  match constraints with Some c => truthy (video c) | None => false end.

Definition wants_audio (constraints : option MediaStreamConstraints) : bool :=
  match constraints with Some c => truthy (audio c) | None => false end.

(** The two conditional calls that open both success paths of media capture;
    each call reads the clock itself. *)
Definition notify_media (pg : Page) (constraints : option MediaStreamConstraints)
    (nowCamera nowMicrophone : Z) : Page * Output :=
  let '(pg1, o1) :=
    if wants_video constraints then notify pg "camera" "active" nowCamera
    else (pg, silent) in
  let '(pg2, o2) :=
    if wants_audio constraints then notify pg1 "microphone" "active" nowMicrophone
    else (pg1, silent) in
  (pg2, out_app o1 o2).

(** [navigator.mediaDevices.getUserMedia]: [original] is how the promise of
    the wrapped function settles; the third component is how the promise
    returned to the caller settles. *)
Definition getUserMedia (pg : Page) (constraints : option MediaStreamConstraints)
    (original : Completion) (nowCamera nowMicrophone : Z)
    : Page * Output * Completion :=
  match original with
  | Normal stream =>
      let '(pg', o) := notify_media pg constraints nowCamera nowMicrophone in
      (pg', o, Normal stream)
  | Abrupt err => (pg, silent, Abrupt err)
  end.

(** [track.stop] as replaced on every track of a granted stream, and the
    [ended] listener: both signal [stopped] for the kind of the track. *)
Definition track_stopped (pg : Page) (kind : string) (now : Z) : Page * Output :=
  let permType :=
    if String.eqb kind "video" then "camera"%string else "microphone"%string in
  notify pg permType "stopped" now.

(** Legacy [navigator.getUserMedia]: the wrapper hands the page's
    [errorCallback] to the wrapped function as it is, and this function as
    the success callback. *)
Definition legacyGetUserMedia_success (pg : Page)
    (constraints : option MediaStreamConstraints)
    (successCallback : option PageCallback) (stream : JSValue)
    (nowCamera nowMicrophone : Z) : Page * Output :=
  let '(pg', o) := notify_media pg constraints nowCamera nowMicrophone in
  (pg', out_app o (call_if_present successCallback stream)).

(** What the legacy wrapper passes to the wrapped function: the
    constraints, the closure above (over the constraints and the page's
    success callback), and the page's error callback. *)
Record LegacyRequest : Type := mkLegacyRequest {
  legacyConstraints : option MediaStreamConstraints;
  legacyOnSuccess : option MediaStreamConstraints * option PageCallback;
  legacyOnError : JSValue
}.

Definition legacyGetUserMedia (constraints : option MediaStreamConstraints)
    (successCallback : option PageCallback) (errorCallback : JSValue)
    : LegacyRequest :=
  mkLegacyRequest constraints (constraints, successCallback) errorCallback.

(** ** Geolocation *)

(** The function a geolocation wrapper passes to the wrapped capability as
    success callback: a closure over the page's own callback and, for a
    watch, over the [callbackCount] cell of that call. *)
Inductive SuccessHandler : Type :=
| OneShotHandler (successCallback : option PageCallback)
| WatchHandler (cell : nat) (successCallback : option PageCallback).

(** What a geolocation wrapper passes to the wrapped capability. *)
Record GeoRequest : Type := mkGeoRequest {
  onSuccess : SuccessHandler;
  onError : JSValue;
  options : JSValue
}.

(** [timeSinceVisibilityChange < 2000 && lastVisibilityChange > 0] *)
Definition within_restore_window (lt : LocationTracking) (now : Z) : bool :=
  (now - lastVisibilityChange lt <? 2000) && (0 <? lastVisibilityChange lt).

(** The success callback of the [getCurrentPosition] wrapper.  [now] is the
    clock as the callback reads it, [nowNotify] the clock as
    [notifyPermissionUsage] reads it when it is called. *)
Definition getCurrentPosition_success (pg : Page)
    (successCallback : option PageCallback) (position : JSValue)
    (now nowNotify : Z) : Page * Output :=
  let lt := locationTracking pg in
  if isUnloading lt then (pg, call_if_present successCallback position)
  else
    let timeSinceLastLog := now - lastLogTime lt in
    if within_restore_window lt now
    then (pg, call_if_present successCallback position)
    else
      let '(pg', o) :=
        if (timeSinceLastLog =? now) || (MIN_LOG_INTERVAL <=? timeSinceLastLog)
        then
          let '(pg1, o1) := notify pg "location" "accessed" nowNotify in
          (set_lastLogTime now pg1, o1)
        else (pg, silent) in
      (pg', out_app o (call_if_present successCallback position)).

(** The [getCurrentPosition] wrapper itself only builds the call of the
    wrapped capability. *)
Definition getCurrentPosition (successCallback : option PageCallback)
    (errorCallback options : JSValue) : GeoRequest :=
  mkGeoRequest (OneShotHandler successCallback) errorCallback options.

(** How the wrapped [watchPosition] completes. *)
Inductive WatchResult : Type :=
| WatchId (watchId : Z)
| WatchThrew (err : JSValue).

(** The [watchPosition] wrapper: a fresh [callbackCount] cell at 0, the call
    of the wrapped capability, and on its return the id joins
    [activeWatchers]. *)
Definition watchPosition (pg : Page) (successCallback : option PageCallback)
    (errorCallback options : JSValue) (original : WatchResult)
    : Page * GeoRequest * WatchResult :=
  let cell := length (callbackCount pg) in
  let pg0 := set_callbackCount (callbackCount pg ++ [0]) pg in
  let request :=
    mkGeoRequest (WatchHandler cell successCallback) errorCallback options in
  match original with
  | WatchId watchId =>
      (set_activeWatchers ({[watchId]} ∪ activeWatchers (locationTracking pg0)) pg0,
       request, WatchId watchId)
  | WatchThrew err => (pg0, request, WatchThrew err)
  end.

(** The success callback of the [watchPosition] wrapper; [None] when there
    is no such closure. *)
Definition watchPosition_success (pg : Page) (cell : nat)
    (successCallback : option PageCallback) (position : JSValue)
    (now nowNotify : Z) : option (Page * Output) :=
  count ← callbackCount pg !! cell;
  let lt := locationTracking pg in
  if isUnloading lt then Some (pg, call_if_present successCallback position)
  else
    let count := count + 1 in
    let pg := set_callbackCount (<[cell := count]> (callbackCount pg)) pg in
    let timeSinceLastLog := now - lastLogTime lt in
    if within_restore_window lt now
    then Some (pg, call_if_present successCallback position)
    else
      let '(pg', o) :=
        if (count =? 1) || (MIN_LOG_INTERVAL <=? timeSinceLastLog)
        then
          let '(pg1, o1) := notify pg "location" "accessed" nowNotify in
          (set_lastLogTime now pg1, o1)
        else (pg, silent) in
      Some (pg', out_app o (call_if_present successCallback position)).

(** The [clearWatch] wrapper; the third component is the argument of the
    call of the wrapped [clearWatch]. *)
Definition clearWatch (pg : Page) (watchId : Z) : Page * Output * Z :=
  (set_activeWatchers (activeWatchers (locationTracking pg) ∖ {[watchId]}) pg,
   silent, watchId).

(** The [beforeunload] and [pagehide] listeners. *)
Definition on_beforeunload (pg : Page) : Page := set_isUnloading true pg.
Definition on_pagehide (pg : Page) : Page := set_isUnloading true pg.

(** The [visibilitychange] listener. *)
Definition on_visibilitychange (pg : Page) (visibilityState : string) (now : Z)
    : Page :=
  if String.eqb visibilityState "visible" then set_lastVisibilityChange now pg
  else pg.

(** ** Clipboard *)

(** [text !== undefined && text !== null] *)
Definition defined_value (v : JSValue) : bool :=
  match v with
  | JSUndefined | JSNull => false
  | _ => true
  end.

(** [navigator.clipboard.readText]: [original] is how the wrapped promise
    settles, the third component how the caller's promise settles. *)
Definition readText (pg : Page) (original : Completion) (now : Z)
    : Page * Output * Completion :=
  match original with
  | Normal text =>
      let '(pg', o) :=
        if defined_value text then notify pg "clipboard-read" "accessed" now
        else (pg, silent) in
      (pg', o, Normal text)
  | Abrupt err => (pg, silent, Abrupt err)
  end.

(** [navigator.clipboard.read] *)
Definition read (pg : Page) (original : Completion) (now : Z)
    : Page * Output * Completion :=
  match original with
  | Normal clipboardItems =>
      let '(pg', o) :=
        if truthy clipboardItems && length_positive clipboardItems
        then notify pg "clipboard-read" "accessed" now
        else (pg, silent) in
      (pg', o, Normal clipboardItems)
  | Abrupt err => (pg, silent, Abrupt err)
  end.

(** [navigator.clipboard.writeText]; the success handler returns nothing, so
    the caller's promise resolves with [undefined]. *)
Definition writeText (pg : Page) (original : Completion) (now : Z)
    : Page * Output * Completion :=
  match original with
  | Normal _ =>
      let '(pg', o) := notify pg "clipboard-write" "accessed" now in
      (pg', o, Normal JSUndefined)
  | Abrupt err => (pg, silent, Abrupt err)
  end.

(** [navigator.clipboard.write] *)
Definition write (pg : Page) (original : Completion) (now : Z)
    : Page * Output * Completion :=
  match original with
  | Normal _ =>
      let '(pg', o) := notify pg "clipboard-write" "accessed" now in
      (pg', o, Normal JSUndefined)
  | Abrupt err => (pg, silent, Abrupt err)
  end.

(** ** Notifications *)

(** The replacement of the [Notification] constructor: the signal first,
    then [new OriginalNotification(title, options)], whose completion
    [original] is the completion of the call. *)
Definition Notification (pg : Page) (original : Completion) (now : Z)
    : Page * Output * Completion :=
  let '(pg', o) := notify pg "notifications" "shown" now in
  (pg', o, original).

(** ** The page as a transition system *)

(** One turn of the script: a call of a wrapper together with the completion
    of the capability it wraps, a callback of a capability, or a listener. *)
Inductive PageInput : Type :=
| InGetUserMedia (constraints : option MediaStreamConstraints)
    (original : Completion) (nowCamera nowMicrophone : Z)
| InLegacySuccess (constraints : option MediaStreamConstraints)
    (successCallback : option PageCallback) (stream : JSValue)
    (nowCamera nowMicrophone : Z)
| InTrackStopped (kind : string) (now : Z)
| InWatchPosition (successCallback : option PageCallback)
    (errorCallback options : JSValue) (original : WatchResult)
| InPosition (handler : SuccessHandler) (position : JSValue)
    (now nowNotify : Z)
| InClearWatch (watchId : Z)
| InBeforeUnload
| InPageHide
| InVisibilityChange (visibilityState : string) (now : Z)
| InReadText (original : Completion) (now : Z)
| InRead (original : Completion) (now : Z)
| InWriteText (original : Completion) (now : Z)
| InWrite (original : Completion) (now : Z)
| InNotification (original : Completion) (now : Z).

(** A success callback of the wrapped geolocation capability. *)
Definition run_handler (pg : Page) (handler : SuccessHandler)
    (position : JSValue) (now nowNotify : Z) : option (Page * Output) :=
  match handler with
  | OneShotHandler successCallback =>
      Some (getCurrentPosition_success pg successCallback position now nowNotify)
  | WatchHandler cell successCallback =>
      watchPosition_success pg cell successCallback position now nowNotify
  end.

(** [None]: the input names a closure that was never created. *)
Definition step (pg : Page) (i : PageInput) : option (Page * Output) :=
  match i with
  | InGetUserMedia c original n1 n2 =>
      Some (getUserMedia pg c original n1 n2).1
  | InLegacySuccess c cb stream n1 n2 =>
      Some (legacyGetUserMedia_success pg c cb stream n1 n2)
  | InTrackStopped kind now => Some (track_stopped pg kind now)
  | InWatchPosition cb ecb opts original =>
      Some ((watchPosition pg cb ecb opts original).1.1, silent)
  | InPosition handler position now nowNotify =>
      run_handler pg handler position now nowNotify
  | InClearWatch watchId => Some (clearWatch pg watchId).1
  | InBeforeUnload => Some (on_beforeunload pg, silent)
  | InPageHide => Some (on_pagehide pg, silent)
  | InVisibilityChange vs now => Some (on_visibilitychange pg vs now, silent)
  | InReadText original now => Some (readText pg original now).1
  | InRead original now => Some (read pg original now).1
  | InWriteText original now => Some (writeText pg original now).1
  | InWrite original now => Some (write pg original now).1
  | InNotification original now => Some (Notification pg original now).1
  end.

(** A run: the state at the end and the output of every turn. *)
Fixpoint run (pg : Page) (inputs : list PageInput)
    : option (Page * list Output) :=
  match inputs with
  | [] => Some (pg, [])
  | i :: rest =>
      '(pg1, o) ← step pg i;
      '(pg2, os) ← run pg1 rest;
      Some (pg2, o :: os)
  end.

(** ** The log store of the background script *)

(** A log entry is opaque to the store. *)
Definition LogEntry : Type := positive.

(** [saveLog(logEntry)] on the value stored under the key [logs] ([None]
    when nothing is stored): [result.logs || []], [unshift], the cut of
    [length] to 1000, and the value written back. *)
Definition saveLog (logs : option (list LogEntry)) (logEntry : LogEntry)
    : option (list LogEntry) :=
  let logs := match logs with Some l => l | None => [] end in
  let logs := logEntry :: logs in
  let logs := if (1000 <? Z.of_nat (length logs)) then take 1000 logs else logs in
  Some logs.

(** [getLogs()] *)
Definition getLogs (logs : option (list LogEntry)) : list LogEntry :=
  match logs with Some l => l | None => [] end.

(** Usage events submitted one after the other, oldest first. *)
Definition submit (logs : option (list LogEntry)) (entries : list LogEntry)
    : option (list LogEntry) :=
  foldl saveLog logs entries.

(** ** The debouncer, named parts and the reference without clean-up *)

(** The key of a signal and the clean-up loop, named. *)
Definition eventKey (pt a : string) : string := (pt +:+ "-" +:+ a)%string.

Definition purge (now : Z) (m : gmap string Z) : gmap string Z :=
  filter (λ kv : string * Z, ¬ (now - kv.2 > 5000)) m.

(** The test that makes [notifyPermissionUsage] return early. *)
Definition duplicate (m : gmap string Z) (pt a : string) (now : Z) : Prop :=
  ∃ t0, m !! eventKey pt a = Some t0 ∧ now - t0 < DEBOUNCE_TIME.

(** [notifyPermissionUsage] with its clean-up loop left out: the reference
    the source is compared with. *)
Definition notifyPermissionUsage_without_purge (loggedEvents : gmap string Z)
    (permissionType action : string) (now : Z) : gmap string Z * list Detail :=
  let eventKey := (permissionType +:+ "-" +:+ action)%string in
  if match loggedEvents !! eventKey with
     | Some lastLogTime => now - lastLogTime <? DEBOUNCE_TIME
     | None => false
     end
  then (loggedEvents, [])
  else
    let loggedEvents := <[eventKey := now]> loggedEvents in
    (loggedEvents, [mkDetail permissionType (action_or_accessed action)]).

(** A raw signal with the clock read of its evaluation. *)
Record RawSignal : Type := mkRawSignal {
  sigKind : string;
  sigAction : string;
  observedAt : Z
}.

(** The events each signal of a sequence dispatches (none when rejected),
    for a debouncer [f]. *)
Fixpoint decisions (f : gmap string Z → string → string → Z → gmap string Z * list Detail)
    (m : gmap string Z) (sigs : list RawSignal) : list (list Detail) :=
  match sigs with
  | [] => []
  | s :: rest =>
      let '(m', evs) := f m (sigKind s) (sigAction s) (observedAt s) in
      evs :: decisions f m' rest
  end.

(** Signals in the order of their clock reads, none before [t]. *)
Fixpoint chronological (t : Z) (sigs : list RawSignal) : Prop :=
  match sigs with
  | [] => True
  | s :: rest => t ≤ observedAt s ∧ chronological (observedAt s) rest
  end.

(** The map with clean-up against the map without, at clock [t]: an entry
    is the same in both, or it is gone from the first and older than
    5000ms in the second. *)
Definition purge_sim (t : Z) (mp mf : gmap string Z) : Prop :=
  ∀ k, mp !! k = mf !! k ∨
       (mp !! k = None ∧ ∃ ts, mf !! k = Some ts ∧ t - ts > 5000).

(** The entry of [k], written at [T0], as later signals of other keys can
    leave it at clock [t]: still there, or purged because older than
    5000ms. *)
Definition kept_or_purged (k : string) (T0 t : Z) (m : gmap string Z) : Prop :=
  m !! k = Some T0 ∨ (m !! k = None ∧ t - T0 > 5000).

(** ** Vocabulary of the statements about location *)

(** The raw signal of the location wrappers. *)
Definition location_signal : Signal := ("location"%string, "accessed"%string).

(** A turn is a success callback of geolocation, and of a one-shot query. *)
Definition is_position (i : PageInput) : bool :=
  match i with InPosition _ _ _ _ => true | _ => false end.

Definition is_one_shot (i : PageInput) : bool :=
  match i with InPosition (OneShotHandler _) _ _ _ => true | _ => false end.

(** The location rule let the callback through: the wrapper called
    [notifyPermissionUsage('location', 'accessed')]. *)
Definition location_accepted (o : Output) : Prop :=
  signals o = [location_signal].

(** The clock reads of the location callbacks of a turn are not the epoch
    itself. *)
Definition clock_not_epoch (i : PageInput) : Prop :=
  match i with InPosition _ _ now _ => now ≠ 0 | _ => True end.

(** ** Vocabulary of the statements about single signals *)

(** A wrapper made exactly one call of [notifyPermissionUsage]: the call is
    evaluated by the debouncer, which dispatches one event unless the signal
    is a duplicate. *)
Definition one_signal (pg : Page) (pt a : string) (now : Z)
    (r : Page * Output) : Prop :=
  signals r.2 = [(pt, a)] ∧
  (loggedEvents r.1, dispatched r.2)
  = notifyPermissionUsage (loggedEvents pg) pt a now ∧
  (duplicate (loggedEvents pg) pt a now → dispatched r.2 = []) ∧
  (¬ duplicate (loggedEvents pg) pt a now →
   dispatched r.2 = [mkDetail pt (action_or_accessed a)]).

(** ** Vocabulary of the further statements about the page script *)

(** The page's own callback a success handler closes over. *)
Definition page_callback_of (h : SuccessHandler) : option PageCallback :=
  match h with
  | OneShotHandler successCallback => successCallback
  | WatchHandler _ successCallback => successCallback
  end.

(** Two script states that differ at most in [activeWatchers]. *)
Definition same_but_watchers (pg1 pg2 : Page) : Prop :=
  loggedEvents pg1 = loggedEvents pg2 ∧
  callbackCount pg1 = callbackCount pg2 ∧
  lastLogTime (locationTracking pg1) = lastLogTime (locationTracking pg2) ∧
  isUnloading (locationTracking pg1) = isUnloading (locationTracking pg2) ∧
  lastVisibilityChange (locationTracking pg1)
  = lastVisibilityChange (locationTracking pg2).

(** The key of a raw signal. *)
Definition sigKey (s : RawSignal) : string := eventKey (sigKind s) (sigAction s).

(** ** The log store for entries of any type

    [saveLog] above keeps the entries opaque; the handlers below store
    records, so the same function is written once more over any type of
    entry. *)
Definition saveLogOf {A : Type} (logs : option (list A)) (logEntry : A)
    : option (list A) :=
  let logs := match logs with Some l => l | None => [] end in
  let logs := logEntry :: logs in
  let logs := if (1000 <? Z.of_nat (length logs)) then take 1000 logs else logs in
  Some logs.

(** The empty object literal [{}]. *)
Definition emptyObject : JSValue := JSObject 1%positive.

(** [haystack.includes(needle)] *)
Fixpoint includes (haystack needle : string) : bool :=
  String.prefix needle haystack
  || match haystack with
     | EmptyString => false
     | String _ rest => includes rest needle
     end.

(** ** The content script *)

Module Content.

(** What the listener reads of [window.location] and [document]. *)
Record PageContext : Type := mkPageContext {
  hostname : string;
  href : string;
  title : string;
  visibilityState : string
}.

(** The [data] of the [PERMISSION_USAGE] message. *)
Record LogData : Type := mkLogData {
  permissionType : string;
  domain : string;
  url : string;
  timestamp : string;
  action : string;
  metadata : JSValue;
  pageTitle : JSValue;
  isVisible : JSValue
}.

(** The listener of [PERMISSION_DETECTED]: [ctx] is the page at the time of
    the event, [isoNow] is [new Date().toISOString()].  The detail of an
    event of the page script carries no [metadata], so [data.metadata || {}]
    is the empty object. *)
Definition on_PERMISSION_DETECTED (ctx : PageContext) (isoNow : string)
    (data : Detail) : LogData :=
  let 'mkDetail detailType detailAction := data in
  mkLogData detailType (hostname ctx) (href ctx) isoNow detailAction
    emptyObject (JSString (title ctx))
    (JSBool (String.eqb (visibilityState ctx) "visible")).

End Content.

(** ** The background service worker *)

Module Background.

Record LogEntry : Type := mkLogEntry {
  id : string;
  timestamp : string;
  dateFormatted : string;
  domain : string;
  url : string;
  permissionType : string;
  action : string;
  metadata : JSValue;
  pageTitle : JSValue;
  isVisible : JSValue
}.

(** The stored settings object, as far as it is read. *)
Record Settings : Type := mkSettings {
  notificationsEnabled : JSValue
}.

(** [chrome.storage.local] (the keys [logs] and [settings], [None] when
    nothing is stored), the counter [newLogsCount], the badge text and the
    map [notificationTracker]. *)
Record State : Type := mkState {
  logs : option (list LogEntry);
  settings : option Settings;
  newLogsCount : Z;
  badgeText : string;
  notificationTracker : gmap string Z
}.

Definition NOTIFICATION_COOLDOWN : Z := 3000.

(** What the worker reads of its environment while it handles one usage
    message: the id it generates, [formatDate(data.timestamp)], and the
    clock [showNotification] reads. *)
Record Env : Type := mkEnv {
  freshId : string;
  formattedDate : string;
  now : Z
}.

(** A call of [chrome.notifications.create], by the entry it announces (the
    title and the message are functions of the permission type and the
    domain). *)
Definition Alert : Type := (string * string)%type.

(** [updateBadge()] *)
Definition updateBadge (st : State) : State :=
  let text :=
    if 0 <? newLogsCount st
    then if 99 <? newLogsCount st then "99+"%string
         else pretty (newLogsCount st)
    else ""%string in
  mkState (logs st) (settings st) (newLogsCount st) text
    (notificationTracker st).

(** [resetBadge()] *)
Definition resetBadge (st : State) : State :=
  mkState (logs st) (settings st) 0 "" (notificationTracker st).

(** [saveLog(logEntry)] on the worker's storage. *)
Definition saveLog (st : State) (logEntry : LogEntry) : State :=
  mkState (saveLogOf (logs st) logEntry) (settings st) (newLogsCount st)
    (badgeText st) (notificationTracker st).

(** [getLogs()] *)
Definition getLogs (st : State) : list LogEntry :=
  match logs st with Some l => l | None => [] end.

(** [clearLogs()] *)
Definition clearLogs (st : State) : State :=
  updateBadge
    (mkState (Some []) (settings st) 0 (badgeText st) (notificationTracker st)).

(** [getSettings()] *)
Definition getSettings (st : State) : Settings :=
  match settings st with
  | Some s => s
  | None => mkSettings (JSBool true)
  end.

(** [updateSettings(newSettings)] *)
Definition updateSettings (st : State) (newSettings : Settings) : State :=
  mkState (logs st) (Some newSettings) (newLogsCount st) (badgeText st)
    (notificationTracker st).

(** [showNotification(logEntry)], with [now] its clock read: the tracker
    afterwards and the notifications created. *)
Definition showNotification (tracker : gmap string Z) (logEntry : LogEntry)
    (now : Z) : gmap string Z * list Alert :=
  let notificationKey :=
    (permissionType logEntry +:+ "-" +:+ domain logEntry)%string in
  if match tracker !! notificationKey with
     | Some lastShown => now - lastShown <? NOTIFICATION_COOLDOWN
     | None => false
     end
  then (tracker, [])
  else
    let tracker := <[notificationKey := now]> tracker in
    let tracker :=
      filter (λ kv : string * Z, ¬ (now - kv.2 > 10000)) tracker in
    (tracker, [(permissionType logEntry, domain logEntry)]).

(** [data.metadata || {}], [data.pageTitle || ''] and
    [data.isVisible !== undefined ? data.isVisible : true] *)
Definition metadata_or_empty (v : JSValue) : JSValue :=
  if truthy v then v else emptyObject.

Definition pageTitle_or_empty (v : JSValue) : JSValue :=
  if truthy v then v else JSString "".

Definition isVisible_or_true (v : JSValue) : JSValue :=
  match v with JSUndefined => JSBool true | _ => v end.

(** [settings.notificationsEnabled !== false] *)
Definition not_false (v : JSValue) : bool :=
  match v with JSBool false => false | _ => true end.

(** [handlePermissionUsage(data)] run from its first line to its last with
    no other handler in between, storage calls succeeding.  The function is
    [async] and the listener does not wait for it: what it does when other
    handlers run between its awaits is in [Async] below, of which this is
    the schedule without interruption. *)
Definition handlePermissionUsage (st : State) (data : Content.LogData)
    (env : Env) : State * list Alert :=
  let logEntry :=
    mkLogEntry (freshId env) (Content.timestamp data) (formattedDate env)
      (Content.domain data) (Content.url data) (Content.permissionType data)
      (Content.action data) (metadata_or_empty (Content.metadata data))
      (pageTitle_or_empty (Content.pageTitle data))
      (isVisible_or_true (Content.isVisible data)) in
  let st := saveLog st logEntry in
  let st := mkState (logs st) (settings st) (newLogsCount st + 1)
              (badgeText st) (notificationTracker st) in
  let st := updateBadge st in
  let settings := getSettings st in
  if not_false (notificationsEnabled settings)
  then
    let '(tracker, alerts) :=
      showNotification (notificationTracker st) logEntry (now env) in
    (mkState (logs st) (Background.settings st) (newLogsCount st)
       (badgeText st) tracker, alerts)
  else (st, []).

(** The messages the worker listens to, and its answers. *)
Inductive Message : Type :=
| PERMISSION_USAGE (data : Content.LogData)
| GET_LOGS
| CLEAR_LOGS
| GET_SETTINGS
| UPDATE_SETTINGS (newSettings : Settings)
| RESET_BADGE
| OTHER (type : string).

Inductive Response : Type :=
| NoResponse
| LogsResponse (logs : list LogEntry)
| SettingsResponse (settings : Settings)
| SuccessResponse.

(** The [onMessage] listener together with the handler it starts, the
    handler run to its end before anything else happens (the schedule
    without interruption of [Async] below). *)
Definition onMessage (st : State) (message : Message) (env : Env)
    : State * Response * list Alert :=
  match message with
  | PERMISSION_USAGE data =>
      let '(st', alerts) := handlePermissionUsage st data env in
      (st', NoResponse, alerts)
  | GET_LOGS => (st, LogsResponse (getLogs st), [])
  | CLEAR_LOGS => (clearLogs st, SuccessResponse, [])
  | GET_SETTINGS => (st, SettingsResponse (getSettings st), [])
  | UPDATE_SETTINGS newSettings =>
      (updateSettings st newSettings, SuccessResponse, [])
  | RESET_BADGE => (resetBadge st, SuccessResponse, [])
  | OTHER _ => (st, NoResponse, [])
  end.

(** The worker over a series of messages, none arriving before the handler
    of the one before has ended: the state at the end, the answers and the
    notifications created, message by message. *)
Fixpoint serve (st : State) (messages : list (Message * Env))
    : State * list (Response * list Alert) :=
  match messages with
  | [] => (st, [])
  | (message, env) :: rest =>
      let '(st1, response, alerts) := onMessage st message env in
      let '(st2, answers) := serve st1 rest in
      (st2, (response, alerts) :: answers)
  end.

(** The worker when it starts, and the storage [onInstalled] sets up. *)
Definition startState (logs : option (list LogEntry))
    (settings : option Settings) : State :=
  mkState logs settings 0 "" ∅.

End Background.

(** ** Vocabulary of the statements about the worker *)

(** The key of the cooldown, and the test that makes [showNotification]
    return early. *)
Definition notificationKey (e : Background.LogEntry) : string :=
  (Background.permissionType e +:+ "-" +:+ Background.domain e)%string.

Definition in_cooldown (tracker : gmap string Z) (e : Background.LogEntry)
    (now : Z) : Prop :=
  ∃ t0, tracker !! notificationKey e = Some t0 ∧ now - t0 < 3000.

(** The badge text that goes with a counter. *)
Definition badge_of (n : Z) : string :=
  if decide (n ≤ 0) then ""%string
  else if decide (n ≤ 99) then pretty n else "99+"%string.

(** The state of the worker is consistent: the counter is not negative, the
    badge shows it, and at most 1000 entries are stored. *)
Definition worker_ok (st : Background.State) : Prop :=
  0 ≤ Background.newLogsCount st ∧
  Background.badgeText st = badge_of (Background.newLogsCount st) ∧
  (length (Background.getLogs st) ≤ 1000)%nat.

Definition is_update_settings (m : Background.Message) : bool :=
  match m with Background.UPDATE_SETTINGS _ => true | _ => false end.

(** ** The popup and the dashboard *)

Module Popup.

(** [getTimeAgo(isoString)]: [nowMs] is [new Date()], [thenMs] the time
    [isoString] denotes, [localeDate] is [then.toLocaleDateString()]. *)
Definition getTimeAgo (nowMs thenMs : Z) (localeDate : string) : string :=
  let diffMs := nowMs - thenMs in
  let diffSeconds := diffMs / 1000 in
  let diffMinutes := diffSeconds / 60 in
  let diffHours := diffMinutes / 60 in
  let diffDays := diffHours / 24 in
  if diffSeconds <? 60 then "Just now"%string
  else if diffMinutes <? 60 then (pretty diffMinutes +:+ " min ago")%string
  else if diffHours <? 24 then (pretty diffHours +:+ " hr ago")%string
  else if diffDays <? 7
  then (pretty diffDays +:+ " day"
        +:+ (if negb (diffDays =? 1)%Z then "s" else "") +:+ " ago")%string
  else localeDate.

(** The counters of the statistics. *)
Record Counts : Type := mkCounts {
  camera : nat;
  microphone : nat;
  location : nat;
  clipboard : nat;
  notifications : nat
}.

Definition noCounts : Counts := mkCounts 0 0 0 0 0.

(** The [forEach] body of [loadLogs] in the popup, and of
    [exportAsMarkdown]: a chain of comparisons, the clipboard one with
    [includes]. *)
Definition count_by_chain (counts : Counts) (log : Background.LogEntry)
    : Counts :=
  let pt := Background.permissionType log in
  let '(mkCounts c m l b n) := counts in
  if String.eqb pt "camera" then mkCounts (S c) m l b n
  else if String.eqb pt "microphone" then mkCounts c (S m) l b n
  else if String.eqb pt "location" then mkCounts c m (S l) b n
  else if includes pt "clipboard" then mkCounts c m l (S b) n
  else if String.eqb pt "notifications" then mkCounts c m l b (S n)
  else counts.

(** The [forEach] body of [updateStats] in the dashboard: a [switch]. *)
Definition count_by_switch (counts : Counts) (log : Background.LogEntry)
    : Counts :=
  let pt := Background.permissionType log in
  let '(mkCounts c m l b n) := counts in
  if String.eqb pt "camera" then mkCounts (S c) m l b n
  else if String.eqb pt "microphone" then mkCounts c (S m) l b n
  else if String.eqb pt "location" then mkCounts c m (S l) b n
  else if String.eqb pt "clipboard-read" || String.eqb pt "clipboard-write"
  then mkCounts c m l (S b) n
  else if String.eqb pt "notifications" then mkCounts c m l b (S n)
  else counts.

Definition popupCounts (logs : list Background.LogEntry) : Counts :=
  foldl count_by_chain noCounts logs.

Definition dashboardCounts (logs : list Background.LogEntry) : Counts :=
  foldl count_by_switch noCounts logs.

Definition total (counts : Counts) : nat :=
  (camera counts + microphone counts + location counts + clipboard counts
   + notifications counts)%nat.

(** The predicate of [applyFilters]: [permissionFilter] is the value of the
    select box, [domainSearch] the search text lower-cased and trimmed. *)
Definition keeps (toLowerCase : string → string)
    (permissionFilter domainSearch : string) (log : Background.LogEntry)
    : bool :=
  if negb (String.eqb permissionFilter "all")
     && negb (String.eqb (Background.permissionType log) permissionFilter)
  then false
  else if negb (String.eqb domainSearch "")
          && negb (includes (toLowerCase (Background.domain log)) domainSearch)
  then false
  else true.

(** [applyFilters()]: the new [filteredLogs].  [toLowerCase] and [trim] are
    the string methods of the host. *)
Definition applyFilters (toLowerCase trim : string → string)
    (filterPermission searchDomain : string)
    (allLogs : list Background.LogEntry) : list Background.LogEntry :=
  let permissionFilter := filterPermission in
  let domainSearch := trim (toLowerCase searchDomain) in
  List.filter (keeps toLowerCase permissionFilter domainSearch) allLogs.

(** [resetFilters()]: the new [filteredLogs]. *)
Definition resetFilters (allLogs : list Background.LogEntry)
    : list Background.LogEntry := allLogs.

End Popup.

(** The permission types the page script signals. *)
Definition known_types : list string :=
  ["camera"; "microphone"; "location"; "clipboard-read"; "clipboard-write";
   "notifications"]%string.

(** An output names known permission types only. *)
Definition known_out (o : Output) : Prop :=
  Forall (λ s : Signal, s.1 ∈ known_types) (signals o) ∧
  Forall (λ d : Detail, permissionType d ∈ known_types) (dispatched o).

(** ** Vocabulary of the statement about one-shot pages *)

(** [signals o = [location_signal]], decided. *)
Definition location_acceptedb (o : Output) : bool :=
  bool_decide (signals o = [location_signal]).

(** The clock reads of the location callbacks of a run that the location
    rule accepted, in order. *)
Fixpoint accept_times (inputs : list PageInput) (outs : list Output) : list Z :=
  match inputs, outs with
  | InPosition _ _ now _ :: inputs', o :: outs' =>
      if location_acceptedb o then now :: accept_times inputs' outs'
      else accept_times inputs' outs'
  | _ :: inputs', _ :: outs' => accept_times inputs' outs'
  | _, _ => []
  end.

(** Every time of the list is at least 5000ms after the one before it,
    the first after [prev]. *)
Fixpoint spaced_from (prev : Z) (times : list Z) : Prop :=
  match times with
  | [] => True
  | t :: rest => 5000 ≤ t - prev ∧ spaced_from t rest
  end.

(** The turn is no callback of a watch. *)
Definition no_watch_callback (i : PageInput) : bool :=
  match i with InPosition (WatchHandler _ _) _ _ _ => false | _ => true end.

(** ** The worker with its handlers in flight

    The listener does not wait for a handler: [handlePermissionUsage],
    [getLogs], [clearLogs], [getSettings] and [updateSettings] are [async]
    functions that give way at every [await], and the handlers of messages
    that arrived meanwhile run in between.  A handler in flight is the await
    it is suspended at together with its local variables; each storage call
    takes effect in one step, and each stretch of code between two awaits
    runs in one step. *)

Module Async.

Inductive Task : Type :=
(* handlePermissionUsage *)
| UsageGetLogs (logEntry : Background.LogEntry)
    (* in saveLog, [storage.get(['logs'])] not yet read *)
| UsageSetLogs (logEntry : Background.LogEntry)
    (logs : list Background.LogEntry)
    (* in saveLog, [storage.set({ logs })] not yet written *)
| UsageSaved (logEntry : Background.LogEntry)
    (* saveLog settled, the code after [await saveLog] not yet run *)
| UsageGetSettings (logEntry : Background.LogEntry)
    (* in getSettings, [storage.get(['settings'])] not yet read *)
| UsageSettings (logEntry : Background.LogEntry)
    (settings : Background.Settings)
    (* getSettings settled, the code after [await getSettings] not yet run *)
(* getLogs().then(sendResponse) *)
| LogsGet
(* clearLogs().then(sendResponse) *)
| ClearSet
| ClearWritten
(* getSettings().then(sendResponse) *)
| SettingsGet
(* updateSettings(newSettings).then(sendResponse) *)
| SettingsSet (newSettings : Background.Settings)
| Done.

(** What the worker makes observable: an answer to a message, a desktop
    notification. *)
Inductive Event : Type :=
| Responded (response : Background.Response)
| Alerted (alert : Background.Alert).

(** The entry [handlePermissionUsage] builds before its first await. *)
Definition logEntryOf (data : Content.LogData) (env : Background.Env)
    : Background.LogEntry :=
  Background.mkLogEntry (Background.freshId env) (Content.timestamp data)
    (Background.formattedDate env) (Content.domain data) (Content.url data)
    (Content.permissionType data) (Content.action data)
    (Background.metadata_or_empty (Content.metadata data))
    (Background.pageTitle_or_empty (Content.pageTitle data))
    (Background.isVisible_or_true (Content.isVisible data)).

(** One step of a handler in flight on the worker's state [st]; [now] is
    the clock as [showNotification] reads it, should the step call it. *)
Definition advance (st : Background.State) (task : Task) (now : Z)
    : Background.State * Task * list Event :=
  match task with
  | UsageGetLogs logEntry =>
      (* result.logs || [], unshift, the cut to 1000 *)
      let logs := from_option (λ l, l) []
                    (saveLogOf (Background.logs st) logEntry) in
      (st, UsageSetLogs logEntry logs, [])
  | UsageSetLogs logEntry logs =>
      (Background.mkState (Some logs) (Background.settings st)
         (Background.newLogsCount st) (Background.badgeText st)
         (Background.notificationTracker st),
       UsageSaved logEntry, [])
  | UsageSaved logEntry =>
      (Background.updateBadge
         (Background.mkState (Background.logs st) (Background.settings st)
            (Background.newLogsCount st + 1) (Background.badgeText st)
            (Background.notificationTracker st)),
       UsageGetSettings logEntry, [])
  | UsageGetSettings logEntry =>
      (st, UsageSettings logEntry (Background.getSettings st), [])
  | UsageSettings logEntry settings =>
      if Background.not_false (Background.notificationsEnabled settings)
      then
        let '(tracker, alerts) :=
          Background.showNotification (Background.notificationTracker st)
            logEntry now in
        (Background.mkState (Background.logs st) (Background.settings st)
           (Background.newLogsCount st) (Background.badgeText st) tracker,
         Done, map Alerted alerts)
      else (st, Done, [])
  | LogsGet =>
      (st, Done, [Responded (Background.LogsResponse (Background.getLogs st))])
  | ClearSet =>
      (Background.mkState (Some []) (Background.settings st)
         (Background.newLogsCount st) (Background.badgeText st)
         (Background.notificationTracker st),
       ClearWritten, [])
  | ClearWritten =>
      (Background.updateBadge
         (Background.mkState (Background.logs st) (Background.settings st) 0
            (Background.badgeText st) (Background.notificationTracker st)),
       Done, [Responded Background.SuccessResponse])
  | SettingsGet =>
      (st, Done,
       [Responded (Background.SettingsResponse (Background.getSettings st))])
  | SettingsSet newSettings =>
      (Background.updateSettings st newSettings, Done,
       [Responded Background.SuccessResponse])
  | Done => (st, Done, [])
  end.

(** The worker: its state and the handlers started so far, in the order of
    their messages ([Done] for those that ended). *)
Record System : Type := mkSystem {
  shared : Background.State;
  pool : list Task
}.

(** What happens next: a message arrives, or the handler number [k] takes
    one step. *)
Inductive Action : Type :=
| Arrive (message : Background.Message) (env : Background.Env)
| Advance (k : nat) (now : Z).

(** The listener on the arrival of a message: the code up to the first
    await of the handler it starts. *)
Definition arrive (sys : System) (message : Background.Message)
    (env : Background.Env) : System * list Event :=
  match message with
  | Background.PERMISSION_USAGE data =>
      (mkSystem (shared sys) (pool sys ++ [UsageGetLogs (logEntryOf data env)]),
       [])
  | Background.GET_LOGS => (mkSystem (shared sys) (pool sys ++ [LogsGet]), [])
  | Background.CLEAR_LOGS => (mkSystem (shared sys) (pool sys ++ [ClearSet]), [])
  | Background.GET_SETTINGS =>
      (mkSystem (shared sys) (pool sys ++ [SettingsGet]), [])
  | Background.UPDATE_SETTINGS newSettings =>
      (mkSystem (shared sys) (pool sys ++ [SettingsSet newSettings]), [])
  | Background.RESET_BADGE =>
      (mkSystem (Background.resetBadge (shared sys)) (pool sys ++ [Done]),
       [Responded Background.SuccessResponse])
  | Background.OTHER _ => (mkSystem (shared sys) (pool sys ++ [Done]), [])
  end.

Definition act (sys : System) (a : Action) : System * list Event :=
  match a with
  | Arrive message env => arrive sys message env
  | Advance k now =>
      match pool sys !! k with
      | Some task =>
          let '(st, task', events) := advance (shared sys) task now in
          (mkSystem st (<[k := task']> (pool sys)), events)
      | None => (sys, [])
      end
  end.

(** A schedule: the system at its end and the events of every action. *)
Fixpoint exec (sys : System) (schedule : list Action)
    : System * list (list Event) :=
  match schedule with
  | [] => (sys, [])
  | a :: rest =>
      let '(sys1, events) := act sys a in
      let '(sys2, later) := exec sys1 rest in
      (sys2, events :: later)
  end.

(** The alerts and the answers among events. *)
Definition alerts_of (events : list Event) : list Background.Alert :=
  omap (λ ev, match ev with Alerted a => Some a | _ => None end) events.

Definition responses_of (events : list Event) : list Background.Response :=
  omap (λ ev, match ev with Responded r => Some r | _ => None end) events.

(** The action is not a step of handler [k]. *)
Definition leaves_alone (k : nat) (a : Action) : Prop :=
  match a with Advance j _ => j ≠ k | Arrive _ _ => True end.



(** No handler in flight is about to write more than 1000 entries. *)
Definition bounded_task (task : Task) : Prop :=
  match task with
  | UsageSetLogs _ logs => (length logs ≤ 1000)%nat
  | _ => True
  end.

End Async.

(** * Properties *)

(** ** The debouncer *)

Section Debouncer.

Implicit Types (m : gmap string Z) (pt a : string) (now : Z).

Lemma notify_duplicate m pt a now :
  duplicate m pt a now → notifyPermissionUsage m pt a now = (m, []).
Proof.
  intros (t0 & Hk & Hlt). unfold notifyPermissionUsage.
  fold (eventKey pt a). rewrite Hk.
  destruct (Z.ltb_spec (now - t0) DEBOUNCE_TIME); [done | lia].
Qed.

Lemma notify_fresh m pt a now :
  ¬ duplicate m pt a now →
  notifyPermissionUsage m pt a now
  = (purge now (<[eventKey pt a := now]> m),
     [mkDetail pt (action_or_accessed a)]).
Proof.
  intros Hn. unfold notifyPermissionUsage. fold (eventKey pt a).
  destruct (m !! eventKey pt a) as [t0|] eqn:Hk; [|done].
  destruct (Z.ltb_spec (now - t0) DEBOUNCE_TIME); [|done].
  exfalso. apply Hn. by exists t0.
Qed.

Lemma duplicate_dec m pt a now :
  duplicate m pt a now ∨ ¬ duplicate m pt a now.
Proof.
  unfold duplicate.
  destruct (m !! eventKey pt a) as [t0|]; [|right; intros (? & [=] & ?)].
  destruct (Z.lt_ge_cases (now - t0) DEBOUNCE_TIME);
    [left; eauto | right; intros (? & [= <-] & ?); lia].
Qed.

(** The entry written at an acceptance survives the clean-up of the same
    call. *)
Lemma purge_insert_same now k m : purge now (<[k := now]> m) !! k = Some now.
Proof.
  unfold purge. apply map_lookup_filter_Some. split.
  - apply lookup_insert_eq.
  - simpl. lia.
Qed.

Lemma purge_lookup now m k :
  purge now m !! k
  = match m !! k with
    | Some t => if decide (now - t > 5000) then None else Some t
    | None => None
    end.
Proof.
  unfold purge. destruct (m !! k) as [t|] eqn:Hk.
  - case_decide.
    + apply map_lookup_filter_None. right. intros t' Hk'. simpl.
      rewrite Hk in Hk'. injection Hk' as <-. tauto.
    + apply map_lookup_filter_Some. split; [done | simpl; lia].
  - apply map_lookup_filter_None. by left.
Qed.

(** Whether a call dispatched is read off its second component. *)
Lemma notify_dispatched_nil m pt a now :
  (notifyPermissionUsage m pt a now).2 = [] ↔ duplicate m pt a now.
Proof.
  destruct (duplicate_dec m pt a now) as [Hd|Hd].
  - rewrite notify_duplicate by done. done.
  - rewrite notify_fresh by done. simpl. split; [done | tauto].
Qed.

End Debouncer.

(** C1. Generic debounce rule.  Two signals with the same (kind, action)
    key arrive at [T0] and [T], the first one accepted.  The acceptance
    records [T0] for the key.  If [T - T0 < 500] the second is rejected and
    the two calls dispatched exactly one event; if [T - T0 >= 500] the
    second is accepted too, two events were dispatched, and the recorded
    time of the key is [T]. *)
Theorem generic_debounce_rule (m : gmap string Z) (pt a : string) (T0 T : Z) :
  let first := notifyPermissionUsage m pt a T0 in
  let second := notifyPermissionUsage first.1 pt a T in
  first.2 ≠ [] →
  first.1 !! eventKey pt a = Some T0 ∧
  (T - T0 < 500 →
     second = (first.1, []) ∧ length (first.2 ++ second.2) = 1%nat) ∧
  (500 ≤ T - T0 →
     second.2 = [mkDetail pt (action_or_accessed a)] ∧
     length (first.2 ++ second.2) = 2%nat ∧
     second.1 !! eventKey pt a = Some T).
Proof.
  intros first second Hacc.
  assert (Hfresh : ¬ duplicate m pt a T0).
  { intros Hd. apply Hacc. by apply notify_dispatched_nil. }
  subst second first. rewrite (notify_fresh _ _ _ _ Hfresh) in *. simpl.
  pose proof (purge_insert_same T0 (eventKey pt a) m) as Hk.
  split; [done|]. split; intros HT.
  - rewrite notify_duplicate; [done|]. exists T0. split; [done|].
    unfold DEBOUNCE_TIME. lia.
  - rewrite notify_fresh.
    + simpl. split; [done|]. split; [done|]. apply purge_insert_same.
    + intros (t0 & Hk' & Hlt). rewrite Hk in Hk'. injection Hk' as <-.
      unfold DEBOUNCE_TIME in Hlt. lia.
Qed.

Lemma generic_debounce_rule_witness :
  (notifyPermissionUsage
     (notifyPermissionUsage ∅ "notifications" "shown" 1700000000000).1
     "notifications" "shown" 1700000000100).2 = [].
Proof.
  pose proof (generic_debounce_rule ∅ "notifications" "shown"
                1700000000000 1700000000100) as H.
  simpl in H.
  destruct H as (_ & Hlt & _); [by vm_compute|].
  destruct Hlt as [Heq _]; [lia|].
  exact (f_equal snd Heq).
Defined.

(** ** The clean-up loop does not take part in the decision *)

Section Purge.

Implicit Types (mp mf : gmap string Z) (t now : Z).

Lemma purge_sim_refl t m : purge_sim t m m.
Proof. intros k. by left. Qed.

Lemma purge_sim_mono t now mp mf :
  t ≤ now → purge_sim t mp mf → purge_sim now mp mf.
Proof.
  intros Hle Hs k. destruct (Hs k) as [?|(? & ts & ? & ?)]; [by left|].
  right. split; [done|]. exists ts. split; [done | lia].
Qed.

Lemma purge_sim_duplicate now mp mf pt a :
  purge_sim now mp mf → duplicate mp pt a now ↔ duplicate mf pt a now.
Proof.
  intros Hs. unfold duplicate.
  destruct (Hs (eventKey pt a)) as [->|(Hp & ts & Hf & Hold)]; [done|].
  rewrite Hp, Hf. unfold DEBOUNCE_TIME.
  split; intros (t0 & [= <-] & ?); lia.
Qed.

Lemma without_purge_duplicate m pt a now :
  duplicate m pt a now →
  notifyPermissionUsage_without_purge m pt a now = (m, []).
Proof.
  intros (t0 & Hk & Hlt). unfold notifyPermissionUsage_without_purge.
  fold (eventKey pt a). rewrite Hk.
  destruct (Z.ltb_spec (now - t0) DEBOUNCE_TIME); [done | lia].
Qed.

Lemma without_purge_fresh m pt a now :
  ¬ duplicate m pt a now →
  notifyPermissionUsage_without_purge m pt a now
  = (<[eventKey pt a := now]> m, [mkDetail pt (action_or_accessed a)]).
Proof.
  intros Hn. unfold notifyPermissionUsage_without_purge.
  fold (eventKey pt a).
  destruct (m !! eventKey pt a) as [t0|] eqn:Hk; [|done].
  destruct (Z.ltb_spec (now - t0) DEBOUNCE_TIME); [|done].
  exfalso. apply Hn. by exists t0.
Qed.

Lemma purge_sim_accept now k mp mf :
  purge_sim now mp mf →
  purge_sim now (purge now (<[k := now]> mp)) (<[k := now]> mf).
Proof.
  intros Hs k'. rewrite purge_lookup.
  destruct (decide (k = k')) as [<-|Hne].
  - rewrite !lookup_insert_eq. case_decide; [lia | by left].
  - rewrite !lookup_insert_ne by done.
    destruct (Hs k') as [Heq|(Hp & ts & Hf & Hold)].
    + rewrite Heq. destruct (mf !! k') as [ts|]; [|by left].
      case_decide; [|by left]. right. eauto.
    + rewrite Hp. right. eauto.
Qed.

(** One signal: same events, and the relation is kept. *)
Lemma purge_sim_step now mp mf pt a :
  purge_sim now mp mf →
  (notifyPermissionUsage mp pt a now).2
  = (notifyPermissionUsage_without_purge mf pt a now).2 ∧
  purge_sim now (notifyPermissionUsage mp pt a now).1
    (notifyPermissionUsage_without_purge mf pt a now).1.
Proof.
  intros Hs. destruct (duplicate_dec mp pt a now) as [Hd|Hd].
  - rewrite notify_duplicate by done.
    rewrite without_purge_duplicate by (by apply (purge_sim_duplicate _ mp)).
    done.
  - rewrite notify_fresh by done.
    rewrite without_purge_fresh
      by (by rewrite <- (purge_sim_duplicate _ mp mf)).
    split; [done|]. by apply purge_sim_accept.
Qed.

Lemma decisions_purge_sim t mp mf sigs :
  purge_sim t mp mf → chronological t sigs →
  decisions notifyPermissionUsage mp sigs
  = decisions notifyPermissionUsage_without_purge mf sigs.
Proof.
  revert t mp mf. induction sigs as [|s rest IH]; intros t mp mf Hs Hc.
  - done.
  - destruct Hc as [Hle Hc]. simpl.
    pose proof (purge_sim_step (observedAt s) mp mf (sigKind s) (sigAction s)
                  (purge_sim_mono _ _ _ _ Hle Hs)) as [Hev Hs'].
    destruct (notifyPermissionUsage mp _ _ _) as [mp' evs].
    destruct (notifyPermissionUsage_without_purge mf _ _ _) as [mf' evs'].
    simpl in *. subst evs'. f_equal. by apply (IH (observedAt s)).
Qed.

End Purge.

(** C9 (as amended). The purge of entries older than 5000ms is irrelevant
    to the decisions as long as the clock does not step back: for every
    sequence of raw signals whose clock reads do not decrease, from any
    debounce map, every signal dispatches the same events (is accepted or
    rejected alike) with the clean-up loop and without it. *)
Theorem purge_is_decision_irrelevant (m : gmap string Z) (sigs : list RawSignal)
    (t : Z) :
  chronological t sigs →
  decisions notifyPermissionUsage m sigs
  = decisions notifyPermissionUsage_without_purge m sigs.
Proof. intros Hc. apply (decisions_purge_sim t); [apply purge_sim_refl | done]. Qed.

Lemma purge_is_decision_irrelevant_witness :
  decisions notifyPermissionUsage ∅
    [mkRawSignal "camera" "active" 1000; mkRawSignal "microphone" "active" 7000;
     mkRawSignal "camera" "active" 7200]
  = decisions notifyPermissionUsage_without_purge ∅
    [mkRawSignal "camera" "active" 1000; mkRawSignal "microphone" "active" 7000;
     mkRawSignal "camera" "active" 7200].
Proof.
  apply (purge_is_decision_irrelevant ∅ _ 0). simpl. lia.
Defined.

(** C9 as it is worded fails: for a sequence in which the clock steps back
    by more than 4500ms between two signals of a key, the entry purged in
    between is missed, and the signal that the loop-free debouncer rejects
    is dispatched. *)
Remark purge_needs_chronological :
  let sigs := [mkRawSignal "camera" "active" 10000;
               mkRawSignal "microphone" "active" 16000;
               mkRawSignal "camera" "active" 10100] in
  decisions notifyPermissionUsage ∅ sigs
  ≠ decisions notifyPermissionUsage_without_purge ∅ sigs.
Proof. vm_compute. discriminate. Qed.

(** ** The location rule *)

Lemma notify_spec (pg : Page) (pt a : string) (now : Z) :
  let r := notify pg pt a now in
  locationTracking r.1 = locationTracking pg ∧
  callbackCount r.1 = callbackCount pg ∧
  signals r.2 = [(pt, a)] ∧
  invoked r.2 = [] ∧
  (loggedEvents r.1, dispatched r.2)
  = notifyPermissionUsage (loggedEvents pg) pt a now.
Proof.
  unfold notify.
  destruct (notifyPermissionUsage (loggedEvents pg) pt a now) as [m evs].
  done.
Qed.

Lemma call_if_present_quiet cb arg :
  signals (call_if_present cb arg) = [] ∧
  dispatched (call_if_present cb arg) = [].
Proof. by destruct cb. Qed.

Lemma since_last_log_is_now (now llt : Z) : (now - llt =? now) = true ↔ llt = 0.
Proof. rewrite Z.eqb_eq. lia. Qed.

(** The one-shot callback, once past the two suppressions. *)
Lemma one_shot_rule (pg : Page) cb pos (now nowN : Z) :
  isUnloading (locationTracking pg) = false →
  within_restore_window (locationTracking pg) now = false →
  let llt := lastLogTime (locationTracking pg) in
  let r := getCurrentPosition_success pg cb pos now nowN in
  (location_accepted r.2 ↔ llt = 0 ∨ 5000 ≤ now - llt) ∧
  (location_accepted r.2 →
     lastLogTime (locationTracking r.1) = now ∧
     (loggedEvents r.1, dispatched r.2)
     = notifyPermissionUsage (loggedEvents pg) "location" "accessed" nowN) ∧
  (¬ location_accepted r.2 →
     r.1 = pg ∧ signals r.2 = [] ∧ dispatched r.2 = []).
Proof.
  intros Hu Hw llt r. subst r. unfold getCurrentPosition_success.
  rewrite Hu, Hw. fold llt. unfold location_accepted, MIN_LOG_INTERVAL.
  destruct ((now - llt =? now) || (5000 <=? now - llt)) eqn:Hc.
  - pose proof (notify_spec pg "location" "accessed" nowN) as Hn.
    destruct (notify pg "location" "accessed" nowN) as [pg1 o1].
    simpl in Hn. destruct Hn as (Hlt & Hcc & Hs & Hi & Hm). simpl.
    destruct (call_if_present_quiet cb pos) as [-> ->]. rewrite !app_nil_r.
    apply orb_true_iff in Hc. rewrite since_last_log_is_now, Z.leb_le in Hc.
    split; [done|]. split; [done|]. intros Hn. by destruct Hn.
  - apply orb_false_iff in Hc. destruct Hc as [Hc1 Hc2].
    apply Z.eqb_neq in Hc1. apply Z.leb_gt in Hc2. simpl.
    destruct (call_if_present_quiet cb pos) as [-> ->].
    split; [|done]. split; [done|]. intros [?|?]; lia.
Qed.

(** The callback of a watch, once past the two suppressions: [count] is the
    counter of the watch before the callback. *)
Lemma watch_rule (pg : Page) cell count cb pos (now nowN : Z) :
  callbackCount pg !! cell = Some count →
  isUnloading (locationTracking pg) = false →
  within_restore_window (locationTracking pg) now = false →
  let llt := lastLogTime (locationTracking pg) in
  ∃ pg' o,
    watchPosition_success pg cell cb pos now nowN = Some (pg', o) ∧
    callbackCount pg' = <[cell := count + 1]> (callbackCount pg) ∧
    (location_accepted o ↔ count + 1 = 1 ∨ 5000 ≤ now - llt) ∧
    (location_accepted o →
       lastLogTime (locationTracking pg') = now ∧
       (loggedEvents pg', dispatched o)
       = notifyPermissionUsage (loggedEvents pg) "location" "accessed" nowN) ∧
    (¬ location_accepted o →
       locationTracking pg' = locationTracking pg ∧
       loggedEvents pg' = loggedEvents pg ∧
       signals o = [] ∧ dispatched o = []).
Proof.
  intros Hcell Hu Hw llt. unfold watchPosition_success.
  rewrite Hcell. simpl. rewrite Hu, Hw. fold llt.
  unfold location_accepted, MIN_LOG_INTERVAL.
  set (pg0 := set_callbackCount _ pg).
  destruct ((count + 1 =? 1) || (5000 <=? now - llt)) eqn:Hc.
  - pose proof (notify_spec pg0 "location" "accessed" nowN) as Hn.
    destruct (notify pg0 "location" "accessed" nowN) as [pg1 o1].
    simpl in Hn. destruct Hn as (Hlt & Hcc & Hs & Hi & Hm).
    eexists _, _. split; [done|]. simpl.
    destruct (call_if_present_quiet cb pos) as [-> ->]. rewrite !app_nil_r.
    apply orb_true_iff in Hc. rewrite Z.eqb_eq, Z.leb_le in Hc.
    split; [done|]. split; [done|]. split; [done|]. intros Hn. by destruct Hn.
  - apply orb_false_iff in Hc. destruct Hc as [Hc1 Hc2].
    apply Z.eqb_neq in Hc1. apply Z.leb_gt in Hc2.
    eexists _, _. split; [done|]. simpl.
    destruct (call_if_present_quiet cb pos) as [-> ->].
    split; [done|]. split; [|done]. split; [done|]. intros [?|?]; lia.
Qed.

(** ** What one turn can change *)

Lemma notify_frame (pg : Page) (pt a : string) (now : Z) :
  let r := notify pg pt a now in
  locationTracking r.1 = locationTracking pg ∧
  callbackCount r.1 = callbackCount pg ∧
  signals r.2 = [(pt, a)] ∧
  (dispatched r.2 = [] → r.1 = pg).
Proof.
  pose proof (notify_spec pg pt a now) as (Hlt & Hcc & Hs & _ & Hm).
  simpl. split; [done|]. split; [done|]. split; [done|]. intros Hd.
  rewrite Hd in Hm.
  assert (Hdup : duplicate (loggedEvents pg) pt a now).
  { apply notify_dispatched_nil. by rewrite <- Hm. }
  rewrite (notify_duplicate _ _ _ _ Hdup) in Hm. injection Hm as Hm.
  destruct (notify pg pt a now).1 as [m lt cc], pg as [m0 lt0 cc0].
  simpl in *. by subst.
Qed.

(** A callback stopped by the unloading flag or by the restore window
    signals nothing; the script state is as before, but for the counter of
    the watch in the second case. *)
Lemma position_suppressed (pg pg' : Page) h pos (now nowN : Z) (o : Output) :
  isUnloading (locationTracking pg) = true ∨
  within_restore_window (locationTracking pg) now = true →
  run_handler pg h pos now nowN = Some (pg', o) →
  signals o = [] ∧ dispatched o = [] ∧
  locationTracking pg' = locationTracking pg ∧
  loggedEvents pg' = loggedEvents pg ∧
  (isUnloading (locationTracking pg) = true → pg' = pg).
Proof.
  intros Hsup Hrun. destruct h as [cb|cell cb]; simpl in Hrun.
  - unfold getCurrentPosition_success in Hrun.
    destruct (isUnloading (locationTracking pg)) eqn:Hu.
    + injection Hrun as <- <-.
      by destruct (call_if_present_quiet cb pos) as [-> ->].
    + destruct Hsup as [?|Hw]; [done|]. rewrite Hw in Hrun.
      injection Hrun as <- <-.
      by destruct (call_if_present_quiet cb pos) as [-> ->].
  - unfold watchPosition_success in Hrun.
    destruct (callbackCount pg !! cell) as [count|]; [|done]. simpl in Hrun.
    destruct (isUnloading (locationTracking pg)) eqn:Hu.
    + injection Hrun as <- <-.
      by destruct (call_if_present_quiet cb pos) as [-> ->].
    + destruct Hsup as [?|Hw]; [done|]. rewrite Hw in Hrun.
      injection Hrun as <- <-.
      by destruct (call_if_present_quiet cb pos) as [-> ->].
Qed.

(** Every success callback of geolocation falls in one of two cases: the
    location rule accepted it, [lastLogTime] is the clock read of the
    callback and the signal went through [notifyPermissionUsage]; or nothing
    was signalled and neither [locationTracking] nor the debounce map
    changed. *)
Lemma run_handler_cases (pg pg' : Page) h pos (now nowN : Z) (o : Output) :
  run_handler pg h pos now nowN = Some (pg', o) →
  (location_accepted o ∧
   isUnloading (locationTracking pg) = false ∧
   locationTracking pg' = locationTracking (set_lastLogTime now pg) ∧
   (loggedEvents pg', dispatched o)
   = notifyPermissionUsage (loggedEvents pg) "location" "accessed" nowN)
  ∨
  (signals o = [] ∧ dispatched o = [] ∧
   locationTracking pg' = locationTracking pg ∧
   loggedEvents pg' = loggedEvents pg).
Proof.
  intros Hrun.
  destruct (isUnloading (locationTracking pg)) eqn:Hu.
  { right. pose proof (position_suppressed _ _ _ _ _ _ _ (or_introl Hu) Hrun).
    tauto. }
  destruct (within_restore_window (locationTracking pg) now) eqn:Hw.
  { right. pose proof (position_suppressed _ _ _ _ _ _ _ (or_intror Hw) Hrun).
    tauto. }
  destruct h as [cb|cell cb]; simpl in Hrun.
  - unfold getCurrentPosition_success in Hrun. rewrite Hu, Hw in Hrun.
    destruct (_ || _) in Hrun.
    + left.
      pose proof (notify_spec pg "location" "accessed" nowN)
        as (Hlt & _ & Hs & _ & Hm).
      destruct (notify pg "location" "accessed" nowN) as [pg1 o1].
      simpl in *. injection Hrun as <- <-.
      unfold location_accepted. simpl.
      destruct (call_if_present_quiet cb pos) as [-> ->].
      rewrite !app_nil_r, Hlt. done.
    + right. injection Hrun as <- <-. simpl.
      by destruct (call_if_present_quiet cb pos) as [-> ->].
  - unfold watchPosition_success in Hrun.
    destruct (callbackCount pg !! cell) as [count|]; [|done]. simpl in Hrun.
    rewrite Hu, Hw in Hrun.
    set (pg0 := set_callbackCount _ pg) in Hrun.
    destruct (_ || _) in Hrun.
    + left.
      pose proof (notify_spec pg0 "location" "accessed" nowN)
        as (Hlt & _ & Hs & _ & Hm).
      destruct (notify pg0 "location" "accessed" nowN) as [pg1 o1].
      simpl in *. injection Hrun as <- <-.
      unfold location_accepted. simpl.
      destruct (call_if_present_quiet cb pos) as [-> ->].
      rewrite !app_nil_r, Hlt. done.
    + right. injection Hrun as <- <-. simpl.
      by destruct (call_if_present_quiet cb pos) as [-> ->].
Qed.

Ltac notify_step :=
  repeat match goal with
  | H : context [notify ?pg ?pt ?a ?n] |- _ =>
      let Hn := fresh "Hn" in
      pose proof (notify_frame pg pt a n) as Hn; simpl in Hn;
      destruct (notify pg pt a n) as [? ?]
  end.

Ltac not_location :=
  (apply (bool_decide_unpack _); vm_compute; exact I).

(** The turns that are not success callbacks of geolocation: they leave
    [lastLogTime] alone, never clear the unloading flag, never signal
    location, and leave the debounce map as it is when they dispatch
    nothing. *)
Lemma step_other (pg pg' : Page) (i : PageInput) (o : Output) :
  is_position i = false →
  step pg i = Some (pg', o) →
  lastLogTime (locationTracking pg') = lastLogTime (locationTracking pg) ∧
  (isUnloading (locationTracking pg) = true →
   isUnloading (locationTracking pg') = true) ∧
  (location_signal ∉ signals o) ∧
  (dispatched o = [] → loggedEvents pg' = loggedEvents pg).
Proof.
  intros Hpos Hstep.
  destruct i; try done; simpl in Hstep;
    unfold getUserMedia, legacyGetUserMedia_success, notify_media,
      track_stopped, watchPosition, clearWatch, on_beforeunload, on_pagehide,
      on_visibilitychange, readText, read, writeText, write, Notification
      in Hstep;
    repeat match type of Hstep with
    | context [match ?x with _ => _ end] =>
        match type of x with
        | bool => destruct x eqn:?
        | Completion => destruct x
        | WatchResult => destruct x
        end
    end;
    notify_step; simpl in *;
    try (destruct successCallback; simpl in * );
    injection Hstep as <- <-; simpl;
    repeat match goal with H : _ ∧ _ |- _ => destruct H end;
    split_and!.
  all: try (intros; congruence).
  all: try (repeat match goal with H : signals _ = _ |- _ => rewrite H end;
            not_location).
  all: rewrite ?app_nil_r; intros Hd;
    try (apply app_eq_nil in Hd as [? ?]);
    repeat match goal with
    | H : ?d = [] → ?p = ?q, H' : ?d = [] |- _ => specialize (H H'); subst p
    end; done.
Qed.

Lemma step_position (pg : Page) (i : PageInput) :
  is_position i = true →
  ∃ h pos now nowN, i = InPosition h pos now nowN ∧
                    step pg i = run_handler pg h pos now nowN.
Proof. destruct i; try done. intros _. by eexists _, _, _, _. Qed.

(** ** The unloading flag *)

Lemma step_unloading (pg pg' : Page) (i : PageInput) (o : Output) :
  isUnloading (locationTracking pg) = true →
  step pg i = Some (pg', o) →
  isUnloading (locationTracking pg') = true ∧
  (is_position i = true → signals o = [] ∧ dispatched o = [] ∧ pg' = pg).
Proof.
  intros Hu Hstep. destruct (is_position i) eqn:Hpos.
  - destruct (step_position pg i Hpos) as (h & pos & now & nowN & -> & Heq).
    rewrite Heq in Hstep.
    pose proof (position_suppressed _ _ _ _ _ _ _ (or_introl Hu) Hstep)
      as (? & ? & Hlt & _ & Hsame).
    rewrite Hlt. by rewrite (Hsame Hu).
  - pose proof (step_other _ _ _ _ Hpos Hstep) as (_ & Hkeep & _).
    split; [by apply Hkeep | done].
Qed.

Lemma run_unloading (inputs : list PageInput) (pg pg' : Page)
    (outs : list Output) :
  isUnloading (locationTracking pg) = true →
  run pg inputs = Some (pg', outs) →
  isUnloading (locationTracking pg') = true ∧
  Forall2 (λ i o, is_position i = true → signals o = [] ∧ dispatched o = [])
    inputs outs.
Proof.
  revert pg outs. induction inputs as [|i rest IH]; intros pg outs Hu Hrun.
  - injection Hrun as <- <-. by split.
  - simpl in Hrun.
    destruct (step pg i) as [[pg1 o]|] eqn:Hstep; [|done]. simpl in Hrun.
    destruct (run pg1 rest) as [[pg2 os]|] eqn:Hrest; [|done].
    injection Hrun as <- <-.
    destruct (step_unloading _ _ _ _ Hu Hstep) as [Hu1 Hq].
    destruct (IH _ _ Hu1 Hrest) as [Hu2 Hall].
    split; [done|]. constructor; [|done]. intros Hp. by destruct (Hq Hp) as (? & ? & _).
Qed.

(** C5. Once [beforeunload] or [pagehide] has set the unloading flag, no turn
    of the script clears it, whatever comes after; and every success
    callback of geolocation that comes after signals nothing and dispatches
    no event, whatever the clock reads and the counters are. *)
Theorem unloading_flag_is_final (pg0 pg pg' : Page) (i : PageInput)
    (o0 : Output) (inputs : list PageInput) (outs : list Output) :
  i = InBeforeUnload ∨ i = InPageHide →
  step pg0 i = Some (pg, o0) →
  run pg inputs = Some (pg', outs) →
  isUnloading (locationTracking pg) = true ∧
  isUnloading (locationTracking pg') = true ∧
  Forall2 (λ i o, is_position i = true → signals o = [] ∧ dispatched o = [])
    inputs outs.
Proof.
  intros Hi Hstep Hrun.
  assert (Hu : isUnloading (locationTracking pg) = true).
  { destruct Hi as [-> | ->]; simpl in Hstep; by injection Hstep as <- _. }
  split; [done|]. by apply (run_unloading inputs pg).
Qed.

(** ** [lastLogTime] is 0 exactly as long as no location signal was accepted *)

Lemma run_lastLogTime_nonzero (inputs : list PageInput) (pg pg' : Page)
    (outs : list Output) :
  lastLogTime (locationTracking pg) ≠ 0 →
  Forall clock_not_epoch inputs →
  run pg inputs = Some (pg', outs) →
  lastLogTime (locationTracking pg') ≠ 0.
Proof.
  revert pg outs. induction inputs as [|i rest IH]; intros pg outs Hnz Hclk Hrun.
  - by injection Hrun as <- <-.
  - simpl in Hrun. inversion Hclk as [|? ? Hi Hrest']; subst.
    destruct (step pg i) as [[pg1 o]|] eqn:Hstep; [|done]. simpl in Hrun.
    destruct (run pg1 rest) as [[pg2 os]|] eqn:Hrest; [|done].
    injection Hrun as <- <-. apply (IH pg1 os); [|done|done].
    destruct (is_position i) eqn:Hpos.
    + destruct (step_position pg i Hpos) as (h & pos & now & nowN & -> & Heq).
      rewrite Heq in Hstep.
      destruct (run_handler_cases _ _ _ _ _ _ _ Hstep)
        as [(_ & _ & Hlt & _)|(_ & _ & Hlt & _)]; rewrite Hlt; done.
    + pose proof (step_other _ _ _ _ Hpos Hstep) as (Hlt & _). by rewrite Hlt.
Qed.

Lemma run_lastLogTime_zero (inputs : list PageInput) (pg pg' : Page)
    (outs : list Output) :
  lastLogTime (locationTracking pg) = 0 →
  Forall clock_not_epoch inputs →
  run pg inputs = Some (pg', outs) →
  lastLogTime (locationTracking pg') = 0
  ↔ Forall (λ o, ¬ location_accepted o) outs.
Proof.
  revert pg outs. induction inputs as [|i rest IH]; intros pg outs Hz Hclk Hrun.
  - injection Hrun as <- <-. split; [by constructor | done].
  - simpl in Hrun. inversion Hclk as [|? ? Hi Hrest']; subst.
    destruct (step pg i) as [[pg1 o]|] eqn:Hstep; [|done]. simpl in Hrun.
    destruct (run pg1 rest) as [[pg2 os]|] eqn:Hrest; [|done].
    injection Hrun as <- <-.
    assert (Hcase : (location_accepted o ∧ lastLogTime (locationTracking pg1) ≠ 0)
                    ∨ (¬ location_accepted o ∧
                       lastLogTime (locationTracking pg1) = 0)).
    { destruct (is_position i) eqn:Hpos.
      - destruct (step_position pg i Hpos) as (h & pos & now & nowN & -> & Heq).
        rewrite Heq in Hstep.
        destruct (run_handler_cases _ _ _ _ _ _ _ Hstep)
          as [(Ha & _ & Hlt & _)|(Hs & _ & Hlt & _)]; rewrite Hlt.
        + left. done.
        + right. split; [|done]. unfold location_accepted. by rewrite Hs.
      - pose proof (step_other _ _ _ _ Hpos Hstep) as (Hlt & _ & Hnin & _).
        right. rewrite Hlt. split; [|done]. intros Ha.
        apply Hnin. rewrite Ha. apply list_elem_of_here. }
    destruct Hcase as [[Ha Hnz]|[Hna Hz1]].
    + split.
      * intros Hend. by destruct (run_lastLogTime_nonzero _ _ _ _ Hnz Hrest' Hrest).
      * intros Hall. by inversion Hall.
    + rewrite (IH _ _ Hz1 Hrest' Hrest). split.
      * by constructor.
      * intros Hall. by inversion Hall.
Qed.

Lemma unloading_flag_is_final_witness :
  ∃ pg' outs,
    run (on_pagehide initialPage)
      [InPosition (OneShotHandler None) (JSObject 1) 1700000000000 1700000000000]
    = Some (pg', outs) ∧
    isUnloading (locationTracking pg') = true ∧
    Forall2 (λ i o, is_position i = true → signals o = [] ∧ dispatched o = [])
      [InPosition (OneShotHandler None) (JSObject 1) 1700000000000 1700000000000]
      outs.
Proof.
  eexists _, _. split; [reflexivity|].
  eapply (unloading_flag_is_final initialPage _ _ InPageHide silent);
    [by right | reflexivity | reflexivity].
Defined.

(** C2 (as amended). A location success callback that neither the unloading
    flag nor the restore window suppresses is accepted by the location rule
    if and only if: for a one-shot query, [lastLogTime] is still 0 or at
    least 5000ms have passed since the last accepted location signal; for a
    watch, it is the first callback of that watch (counter 1 after the
    increment) or at least 5000ms have passed.  On acceptance [lastLogTime]
    is the clock read of the callback; otherwise nothing is signalled.
    [lastLogTime] is 0 exactly when no location signal, of a one-shot query
    or of a watch, has been accepted on the page so far (clock reads other
    than the epoch). *)
Theorem location_acceptance_predicate (pg : Page) (cb : option PageCallback)
    (pos : JSValue) (now nowN : Z) :
  isUnloading (locationTracking pg) = false →
  within_restore_window (locationTracking pg) now = false →
  let llt := lastLogTime (locationTracking pg) in
  (let r := getCurrentPosition_success pg cb pos now nowN in
   (location_accepted r.2 ↔ llt = 0 ∨ 5000 ≤ now - llt) ∧
   (location_accepted r.2 → lastLogTime (locationTracking r.1) = now) ∧
   (¬ location_accepted r.2 →
      r.1 = pg ∧ signals r.2 = [] ∧ dispatched r.2 = [])) ∧
  (∀ cell count, callbackCount pg !! cell = Some count →
     ∃ pg' o,
       watchPosition_success pg cell cb pos now nowN = Some (pg', o) ∧
       callbackCount pg' !! cell = Some (count + 1) ∧
       (location_accepted o ↔ count + 1 = 1 ∨ 5000 ≤ now - llt) ∧
       (location_accepted o → lastLogTime (locationTracking pg') = now) ∧
       (¬ location_accepted o →
          lastLogTime (locationTracking pg') = llt ∧
          signals o = [] ∧ dispatched o = [])) ∧
  (∀ inputs outs,
     run initialPage inputs = Some (pg, outs) →
     Forall clock_not_epoch inputs →
     llt = 0 ↔ Forall (λ o, ¬ location_accepted o) outs).
Proof.
  intros Hu Hw llt. split; [|split].
  - destruct (one_shot_rule pg cb pos now nowN Hu Hw) as (Hiff & Hacc & Hrej).
    simpl. split; [done|]. split; [|done]. intros Ha. by destruct (Hacc Ha).
  - intros cell count Hcell.
    destruct (watch_rule pg cell count cb pos now nowN Hcell Hu Hw)
      as (pg' & o & Heq & Hcc & Hiff & Hacc & Hrej).
    exists pg', o. split; [done|]. split.
    { rewrite Hcc. apply list_lookup_insert_eq. by eapply lookup_lt_Some. }
    split; [done|]. split.
    + intros Ha. by destruct (Hacc Ha).
    + intros Ha. destruct (Hrej Ha) as (Hlt & _ & ? & ?). by rewrite Hlt.
  - intros inputs outs Hrun Hclk.
    by apply (run_lastLogTime_zero inputs initialPage).
Qed.

Lemma location_acceptance_predicate_witness :
  location_accepted
    (getCurrentPosition_success initialPage None (JSObject 1)
       1700000000000 1700000000000).2.
Proof.
  destruct (location_acceptance_predicate initialPage None (JSObject 1)
              1700000000000 1700000000000 eq_refl eq_refl) as [[Hiff _] _].
  apply Hiff. by left.
Defined.

(** C2 as it is worded fails: on a page whose watch had its first callback
    accepted, the first success callback ever of a one-shot query, 1000ms
    later and with no unloading and no visibility change, is dropped. *)
Lemma first_one_shot_after_watch_is_dropped :
  let before :=
    [InWatchPosition None JSUndefined JSUndefined (WatchId 1);
     InPosition (WatchHandler 0 None) (JSObject 1) 1700000000000 1700000000000]
  in
  ∃ pg outs,
    run initialPage before = Some (pg, outs) ∧
    forallb (λ i, negb (is_one_shot i)) before = true ∧
    isUnloading (locationTracking pg) = false ∧
    within_restore_window (locationTracking pg) 1700000001000 = false ∧
    ¬ location_accepted
        (getCurrentPosition_success pg None (JSObject 2)
           1700000001000 1700000001000).2.
Proof.
  eexists _, _. split; [reflexivity|]. by vm_compute.
Qed.

(** ** Location signals and the generic debouncer *)




(** ** Rejected signals *)

(** C8 (as amended). A raw signal [notifyPermissionUsage] rejects leaves the
    whole script state as it was and dispatches nothing.  A location
    callback that dispatches nothing leaves the debounce map and the flags of
    [locationTracking] as they were; [lastLogTime] is as it was when the
    location rule rejected the callback, and is the clock read of the
    callback when the location rule accepted it and only the generic
    debouncer rejected the signal. *)
Theorem rejected_signal_effect (pg : Page) :
  (∀ pt a now,
     dispatched (notify pg pt a now).2 = [] → (notify pg pt a now).1 = pg) ∧
  (∀ h pos now nowN pg' o,
     run_handler pg h pos now nowN = Some (pg', o) →
     dispatched o = [] →
     loggedEvents pg' = loggedEvents pg ∧
     isUnloading (locationTracking pg') = isUnloading (locationTracking pg) ∧
     lastVisibilityChange (locationTracking pg')
     = lastVisibilityChange (locationTracking pg) ∧
     activeWatchers (locationTracking pg')
     = activeWatchers (locationTracking pg) ∧
     (¬ location_accepted o →
        signals o = [] ∧
        lastLogTime (locationTracking pg') = lastLogTime (locationTracking pg)) ∧
     (location_accepted o → lastLogTime (locationTracking pg') = now)).
Proof.
  split.
  - intros pt a now. apply notify_frame.
  - intros h pos now nowN pg' o Hrun Hd.
    destruct (run_handler_cases _ _ _ _ _ _ _ Hrun)
      as [(Ha & _ & Hlt & Hm)|(Hs & _ & Hlt & Hmap)].
    + rewrite Hd in Hm.
      assert (Hdup : duplicate (loggedEvents pg) "location" "accessed" nowN).
      { apply notify_dispatched_nil. by rewrite <- Hm. }
      rewrite notify_duplicate in Hm by done. injection Hm as Hmap.
      rewrite Hlt. simpl. split; [done|]. split; [done|]. split; [done|].
      split; [done|]. split; [done|]. done.
    + rewrite Hlt. split; [done|]. split; [done|]. split; [done|].
      split; [done|]. split; [done|]. intros Ha.
      unfold location_accepted in Ha. by rewrite Hs in Ha.
Qed.

(** C8 as it is worded fails: the first callback of a watch that starts
    100ms after an accepted one-shot callback is rejected by the debouncer
    (nothing is dispatched), and yet [lastLogTime] moves. *)
Lemma debounced_location_signal_moves_lastLogTime :
  let pg1 := (getCurrentPosition_success initialPage None (JSObject 1)
                1700000000000 1700000000000).1 in
  let pg1' := (watchPosition pg1 None JSUndefined JSUndefined (WatchId 1)).1.1 in
  ∃ pg2 o2,
    watchPosition_success pg1' 0 None (JSObject 2) 1700000000100 1700000000100
    = Some (pg2, o2) ∧
    signals o2 = [location_signal] ∧
    dispatched o2 = [] ∧
    loggedEvents pg2 = loggedEvents pg1' ∧
    lastLogTime (locationTracking pg1') = 1700000000000 ∧
    lastLogTime (locationTracking pg2) = 1700000000100 ∧
    lastLogTime (locationTracking pg2) ≠ lastLogTime (locationTracking pg1').
Proof.
  intros pg1 pg1'. eexists _, _. split; [reflexivity|]. by vm_compute.
Qed.

Lemma rejected_signal_effect_witness :
  let pg := (notify initialPage "notifications" "shown" 1700000000000).1 in
  (notify pg "notifications" "shown" 1700000000100).1 = pg.
Proof.
  intros pg. apply (proj1 (rejected_signal_effect pg)). by vm_compute.
Defined.

(** ** Failure of the wrapped capability *)

(** C3 (as amended). When the wrapped operation fails, the wrappers of media
    capture and of the clipboard signal nothing, dispatch nothing, leave the
    script state as it was and settle the caller's promise with the very
    rejection; the legacy media wrapper and the geolocation wrappers hand
    the page's error callback to the wrapped capability as it is, and a
    [watchPosition] that throws re-raises the error with the debounce map
    and [locationTracking] untouched.  The [Notification] wrapper re-raises
    the error of the constructor as it is. *)
Theorem failure_propagates_unchanged (pg : Page) (err : JSValue) :
  (∀ c n1 n2, getUserMedia pg c (Abrupt err) n1 n2 = (pg, silent, Abrupt err)) ∧
  (∀ now, readText pg (Abrupt err) now = (pg, silent, Abrupt err)) ∧
  (∀ now, read pg (Abrupt err) now = (pg, silent, Abrupt err)) ∧
  (∀ now, writeText pg (Abrupt err) now = (pg, silent, Abrupt err)) ∧
  (∀ now, write pg (Abrupt err) now = (pg, silent, Abrupt err)) ∧
  (∀ c cb ecb, legacyOnError (legacyGetUserMedia c cb ecb) = ecb) ∧
  (∀ cb ecb opts, onError (getCurrentPosition cb ecb opts) = ecb) ∧
  (∀ cb ecb opts original,
     onError (watchPosition pg cb ecb opts original).1.2 = ecb) ∧
  (∀ cb ecb opts,
     let r := watchPosition pg cb ecb opts (WatchThrew err) in
     r.2 = WatchThrew err ∧
     loggedEvents r.1.1 = loggedEvents pg ∧
     locationTracking r.1.1 = locationTracking pg) ∧
  (∀ now, (Notification pg (Abrupt err) now).2 = Abrupt err).
Proof.
  repeat split; try done.
  - intros. by destruct original.
  - intros now. unfold Notification.
    by destruct (notify pg "notifications" "shown" now).
Qed.

(** C3 as it is worded fails for notifications: the wrapper signals before
    it constructs, so a constructor that throws still has one event
    dispatched. *)
Lemma throwing_notification_still_dispatches :
  let r := Notification initialPage (Abrupt (JSObject 1)) 1700000000000 in
  r.2 = Abrupt (JSObject 1) ∧
  signals r.1.2 = [("notifications"%string, "shown"%string)] ∧
  dispatched r.1.2 = [mkDetail "notifications" "shown"].
Proof. by vm_compute. Qed.

(** ** Clipboard reads *)

Lemma notify_one_signal (pg : Page) (pt a : string) (now : Z) :
  one_signal pg pt a now (notify pg pt a now).
Proof.
  pose proof (notify_spec pg pt a now) as (_ & _ & Hs & _ & Hm).
  unfold one_signal. split; [done|]. split; [done|]. split; intros Hd.
  - rewrite notify_duplicate in Hm by done. by injection Hm.
  - rewrite notify_fresh in Hm by done. by injection Hm.
Qed.

(** C4 (as amended). Both read wrappers resolve the caller's promise with
    the value the wrapped promise resolved with.  [readText] signals nothing
    when that value is [undefined] or [null], and makes exactly one
    [clipboard-read/accessed] signal for any other value, the empty string
    included.  [read] signals nothing for [undefined], [null] and the empty
    array, and makes exactly one such signal for a non-empty array.  A signal
    is dispatched as exactly one event unless the debouncer finds it a
    duplicate, in which case nothing is dispatched. *)
Theorem clipboard_read_signals (pg : Page) (v : JSValue) (now : Z) :
  let rt := readText pg (Normal v) now in
  let rd := read pg (Normal v) now in
  rt.2 = Normal v ∧ rd.2 = Normal v ∧
  (v = JSUndefined ∨ v = JSNull → rt.1 = (pg, silent) ∧ rd.1 = (pg, silent)) ∧
  (v ≠ JSUndefined → v ≠ JSNull →
   one_signal pg "clipboard-read" "accessed" now rt.1) ∧
  (v = JSArray [] → rd.1 = (pg, silent)) ∧
  (∀ item items, v = JSArray (item :: items) →
   one_signal pg "clipboard-read" "accessed" now rd.1).
Proof.
  simpl. unfold readText, read.
  pose proof (notify_one_signal pg "clipboard-read" "accessed" now) as Hone.
  destruct (notify pg "clipboard-read" "accessed" now) as [pg1 o1].
  split; [by destruct (defined_value v)|].
  split; [by destruct (truthy v && length_positive v)|].
  split; [by intros [-> | ->]|].
  split; [intros ? ?; by destruct v|].
  split; [by intros ->|].
  intros item items ->. done.
Qed.

Lemma clipboard_read_signals_witness :
  dispatched (read initialPage (Normal (JSArray [1%positive])) 1700000000000).1.2
  = [mkDetail "clipboard-read" "accessed"].
Proof.
  destruct (clipboard_read_signals initialPage (JSArray [1%positive])
              1700000000000) as (_ & _ & _ & _ & _ & Hone).
  destruct (Hone 1%positive [] eq_refl) as (_ & _ & _ & Hfresh).
  apply Hfresh. intros (t0 & Hk & _). by vm_compute in Hk.
Defined.

(** C4 as it is worded fails: a [readText] that resolves with the empty
    string has an event dispatched. *)
Lemma empty_text_read_dispatches :
  let r := readText initialPage (Normal (JSString "")) 1700000000000 in
  r.2 = Normal (JSString "") ∧
  dispatched r.1.2 = [mkDetail "clipboard-read" "accessed"].
Proof. by vm_compute. Qed.

(** ** Clearing a watch *)

(** C6. [clearWatch] reads no clock and calls neither
    [notifyPermissionUsage] nor [dispatchEvent]: whatever the state it is
    called in (right after an accepted signal as well), it signals nothing,
    dispatches nothing, calls no page callback, removes the id from
    [activeWatchers], leaves every other part of the script state as it was
    and calls the wrapped [clearWatch] with the same id. *)
Theorem clearWatch_is_silent (pg : Page) (watchId : Z) :
  let r := clearWatch pg watchId in
  r.1.2 = silent ∧
  r.2 = watchId ∧
  step pg (InClearWatch watchId) = Some (r.1.1, silent) ∧
  activeWatchers (locationTracking r.1.1)
  = activeWatchers (locationTracking pg) ∖ {[watchId]} ∧
  loggedEvents r.1.1 = loggedEvents pg ∧
  lastLogTime (locationTracking r.1.1) = lastLogTime (locationTracking pg) ∧
  isUnloading (locationTracking r.1.1) = isUnloading (locationTracking pg) ∧
  lastVisibilityChange (locationTracking r.1.1)
  = lastVisibilityChange (locationTracking pg) ∧
  callbackCount r.1.1 = callbackCount pg.
Proof. done. Qed.

(** Right after an accepted and dispatched signal of a watch, too. *)
Example clearWatch_after_accepted_signal :
  (λ r, map dispatched <$> (snd <$> r))
    (run initialPage
       [InWatchPosition None JSUndefined JSUndefined (WatchId 7);
        InPosition (WatchHandler 0 None) (JSObject 1) 1700000000000 1700000000000;
        InClearWatch 7])
  = Some [[]; [mkDetail "location" "accessed"]; []].
Proof. by vm_compute. Qed.

(** ** The log store *)

Lemma take_app_take {A} (n : nat) (l k : list A) :
  take n (l ++ take n k) = take n (l ++ k).
Proof. rewrite !take_app, take_take. do 2 f_equal. lia. Qed.

Lemma saveLog_take (logs : option (list LogEntry)) (e : LogEntry) :
  getLogs (saveLog logs e) = take 1000 (e :: getLogs logs).
Proof.
  unfold saveLog, getLogs.
  set (l := e :: match logs with Some l => l | None => [] end).
  destruct (Z.ltb_spec 1000 (Z.of_nat (length l))); [done|].
  symmetry. apply take_ge. lia.
Qed.

Lemma submit_take (entries : list LogEntry) (e : LogEntry)
    (logs : option (list LogEntry)) :
  getLogs (submit logs (e :: entries))
  = take 1000 (rev (e :: entries) ++ getLogs logs).
Proof.
  revert e logs. induction entries as [|e' es IH]; intros e logs.
  - apply saveLog_take.
  - change (submit logs (e :: e' :: es))
      with (submit (saveLog logs e) (e' :: es)).
    rewrite IH, saveLog_take, take_app_take.
    change (rev (e :: e' :: es)) with (rev (e' :: es) ++ [e]).
    by rewrite <- app_assoc.
Qed.

(** C7. Every insert leaves the stored sequence with the new entry first,
    the entries stored before after it in their order, cut to 1000; so the
    store never holds more than 1000 entries after an insert, a series of
    inserts leaves the most recent 1000 with the most recent first, and
    after 1001 inserts into an empty store exactly the last 1000 are kept,
    the oldest one gone. *)
Theorem log_store_bound (logs : option (list LogEntry)) (e : LogEntry)
    (entries : list LogEntry) :
  getLogs (saveLog logs e) = take 1000 (e :: getLogs logs) ∧
  (length (getLogs (saveLog logs e)) ≤ 1000)%nat ∧
  getLogs (submit logs (e :: entries))
  = take 1000 (rev (e :: entries) ++ getLogs logs) ∧
  (length (getLogs (submit logs (e :: entries))) ≤ 1000)%nat ∧
  (getLogs logs = [] → length entries = 1000%nat →
   getLogs (submit logs (e :: entries)) = rev entries ∧
   length (getLogs (submit logs (e :: entries))) = 1000%nat).
Proof.
  split; [apply saveLog_take|].
  split; [rewrite saveLog_take, length_take; lia|].
  split; [apply submit_take|].
  split; [rewrite submit_take, length_take; lia|].
  intros Hempty Hlen. rewrite submit_take, Hempty, app_nil_r.
  change (rev (e :: entries)) with (rev entries ++ [e]).
  rewrite take_app_length' by (by rewrite length_rev).
  by rewrite length_rev.
Qed.

Lemma log_store_bound_witness :
  let entries := map Pos.of_nat (seq 2 1000) in
  getLogs (submit None (1%positive :: entries)) = rev entries.
Proof.
  intros entries.
  destruct (log_store_bound None 1%positive entries) as (_ & _ & _ & _ & H).
  apply H; [reflexivity | by vm_compute].
Defined.

(** A key the map does not hold is never a duplicate: the first signal of a
    key on a fresh page is accepted. *)
Lemma first_signal_is_accepted (m : gmap string Z) (pt a : string) (now : Z) :
  m !! eventKey pt a = None →
  (notifyPermissionUsage m pt a now).2 = [mkDetail pt (action_or_accessed a)].
Proof.
  intros Hk. rewrite notify_fresh; [done|].
  intros (t0 & Hk' & _). by rewrite Hk in Hk'.
Qed.

(** ** The debounce rule with signals of other keys in between *)

Section OtherKeys.

Variables (k : string) (T0 : Z).

Lemma other_key_keeps_or_purges (t now : Z) (m : gmap string Z) (pt a : string) :
  eventKey pt a ≠ k → t ≤ now →
  kept_or_purged k T0 t m →
  kept_or_purged k T0 now (notifyPermissionUsage m pt a now).1.
Proof.
  intros Hne Hle Hk. unfold kept_or_purged in *.
  destruct (duplicate_dec m pt a now) as [Hd|Hd].
  - rewrite notify_duplicate by done. simpl.
    destruct Hk as [?|[? ?]]; [by left | right; split; [done | lia]].
  - rewrite notify_fresh by done. simpl.
    rewrite purge_lookup, lookup_insert_ne by done.
    destruct Hk as [->|[-> ?]].
    + case_decide; [right; split; [done | lia] | by left].
    + right. split; [done | lia].
Qed.

Lemma last_decision_after_other_keys (others : list RawSignal) (t T : Z)
    (m : gmap string Z) (pt a : string) :
  eventKey pt a = k →
  kept_or_purged k T0 t m →
  Forall (λ s, eventKey (sigKind s) (sigAction s) ≠ k) others →
  chronological t (others ++ [mkRawSignal pt a T]) →
  last (decisions notifyPermissionUsage m (others ++ [mkRawSignal pt a T]))
  = Some (if decide (T - T0 < 500) then []
          else [mkDetail pt (action_or_accessed a)]).
Proof.
  intros Hkey. revert t m.
  induction others as [|s rest IH]; intros t m Hk Hoth Hchr.
  - destruct Hchr as [Hle _]. simpl in Hle. simpl.
    destruct (notifyPermissionUsage m pt a T) as [m' evs] eqn:Hn. simpl.
    f_equal. change evs with (m', evs).2. rewrite <- Hn.
    destruct Hk as [Hs|[Hnone Hold]].
    + case_decide.
      * rewrite notify_duplicate; [done|]. exists T0. by rewrite Hkey.
      * rewrite notify_fresh; [done|]. intros (t0 & Hk' & Hlt).
        rewrite Hkey, Hs in Hk'. injection Hk' as <-.
        unfold DEBOUNCE_TIME in Hlt. lia.
    + case_decide; [lia|]. rewrite notify_fresh; [done|].
      intros (t0 & Hk' & _). by rewrite Hkey, Hnone in Hk'.
  - destruct Hchr as [Hle Hchr]. apply Forall_cons in Hoth as [Hs Hrest].
    pose proof (other_key_keeps_or_purges t (observedAt s) m
                  (sigKind s) (sigAction s) Hs Hle Hk) as Hk'.
    simpl.
    destruct (notifyPermissionUsage m (sigKind s) (sigAction s) (observedAt s))
      as [m' evs].
    simpl in Hk'. rewrite last_cons.
    by rewrite (IH (observedAt s) m' Hk' Hrest Hchr).
Qed.

End OtherKeys.

(** X20. The rule of C1 holds with any signals of other keys between the two:
    evaluated in the order of their clock reads, after an accepted signal
    of the key at [T0], the next signal of the key, at [T], is rejected if
    [T - T0 < 500] and dispatched if not. *)
Lemma debounce_rule_across_other_keys (m : gmap string Z) (pt a : string)
    (T0 T : Z) (others : list RawSignal) :
  (notifyPermissionUsage m pt a T0).2 ≠ [] →
  Forall (λ s, eventKey (sigKind s) (sigAction s) ≠ eventKey pt a) others →
  chronological T0 (others ++ [mkRawSignal pt a T]) →
  last (decisions notifyPermissionUsage (notifyPermissionUsage m pt a T0).1
          (others ++ [mkRawSignal pt a T]))
  = Some (if decide (T - T0 < 500) then []
          else [mkDetail pt (action_or_accessed a)]).
Proof.
  intros Hacc Hoth Hchr.
  apply (last_decision_after_other_keys (eventKey pt a) T0 others T0);
    [done | | done | done].
  left. rewrite notify_fresh.
  - apply purge_insert_same.
  - intros Hd. apply Hacc. by apply notify_dispatched_nil.
Qed.

(** * Further properties of the page script *)

(** ** The restore window *)

(** X1. After a [visibilitychange] to [visible] read at clock [tv], the
    restore window is open at clock [now] exactly when [0 < tv] and
    [now - tv < 2000]; while it is open every success callback of
    geolocation, of a one-shot query or of a watch, signals nothing,
    dispatches nothing and leaves the debounce map and [lastLogTime] as
    they were, whatever the 5000ms rule or the counter would say.  A
    [visibilitychange] to any other state changes nothing. *)
Theorem restore_window_suppresses (pg : Page) (tv now nowN : Z)
    (h : SuccessHandler) (pos : JSValue) :
  let pg1 := on_visibilitychange pg "visible" tv in
  (within_restore_window (locationTracking pg1) now = true
   ↔ 0 < tv ∧ now - tv < 2000) ∧
  (0 < tv → now - tv < 2000 →
   ∀ pg' o, run_handler pg1 h pos now nowN = Some (pg', o) →
     signals o = [] ∧ dispatched o = [] ∧
     loggedEvents pg' = loggedEvents pg ∧
     lastLogTime (locationTracking pg') = lastLogTime (locationTracking pg)) ∧
  (∀ vs, vs ≠ "visible"%string → on_visibilitychange pg vs tv = pg).
Proof.
  intros pg1.
  assert (Hw : within_restore_window (locationTracking pg1) now = true
               ↔ 0 < tv ∧ now - tv < 2000).
  { unfold within_restore_window. simpl.
    rewrite andb_true_iff, Z.ltb_lt, Z.ltb_lt. tauto. }
  split; [done|]. split.
  - intros Hpos Hlt pg' o Hrun.
    destruct (position_suppressed pg1 pg' h pos now nowN o) as (? & ? & Hl & Hm & _);
      [right; by apply Hw | done |].
    rewrite Hl, Hm. done.
  - intros vs Hvs. unfold on_visibilitychange.
    destruct (String.eqb_spec vs "visible"); done.
Qed.

Lemma restore_window_suppresses_witness :
  signals (getCurrentPosition_success
             (on_visibilitychange initialPage "visible" 1700000000000)
             None (JSObject 1) 1700000001999 1700000001999).2 = [].
Proof.
  destruct (restore_window_suppresses initialPage 1700000000000 1700000001999
              1700000001999 (OneShotHandler None) (JSObject 1))
    as (_ & Hsup & _).
  by destruct (Hsup ltac:(lia) ltac:(lia) _ _ eq_refl) as [? _].
Defined.

(** ** The page's callbacks are always called *)

(** X2. Whatever a success callback of geolocation decides (suppressed,
    dropped, accepted, debounced), it calls the page's own success callback
    exactly once with the position it was given, and calls nothing when the
    page passed none; the success callback of legacy [getUserMedia] does the
    same with the stream. *)
Theorem page_callback_forwarded (pg : Page) (h : SuccessHandler)
    (pos : JSValue) (now nowN : Z) :
  (∀ pg' o, run_handler pg h pos now nowN = Some (pg', o) →
     invoked o = match page_callback_of h with
                 | Some f => [(f, pos)]
                 | None => []
                 end) ∧
  (∀ c cb stream n1 n2,
     invoked (legacyGetUserMedia_success pg c cb stream n1 n2).2
     = match cb with Some f => [(f, stream)] | None => [] end).
Proof.
  split.
  - intros pg' o Hrun. destruct h as [cb|cell cb]; simpl in *.
    + unfold getCurrentPosition_success in Hrun.
      repeat match type of Hrun with
      | context [if ?b then _ else _] => destruct b
      end;
      try (pose proof (notify_spec pg "location" "accessed" nowN)
             as (_ & _ & _ & Hi & _);
           destruct (notify pg "location" "accessed" nowN) as [pg1 o1];
           simpl in Hi);
      injection Hrun as <- <-; destruct cb; simpl; rewrite ?Hi; done.
    + unfold watchPosition_success in Hrun.
      destruct (callbackCount pg !! cell) as [count|]; [|done]. simpl in Hrun.
      set (pg0 := set_callbackCount _ pg) in Hrun.
      repeat match type of Hrun with
      | context [if ?b then _ else _] => destruct b
      end;
      try (pose proof (notify_spec pg0 "location" "accessed" nowN)
             as (_ & _ & _ & Hi & _);
           destruct (notify pg0 "location" "accessed" nowN) as [pg1 o1];
           simpl in Hi);
      injection Hrun as <- <-; destruct cb; simpl; rewrite ?Hi; done.
  - intros c cb stream n1 n2.
    unfold legacyGetUserMedia_success, notify_media.
    destruct (wants_video c), (wants_audio c);
      repeat match goal with
      | |- context [notify ?p ?pt ?a ?n] =>
          let Hi := fresh "Hi" in
          pose proof (notify_spec p pt a n) as (_ & _ & _ & Hi & _);
          destruct (notify p pt a n) as [? ?]; simpl in Hi
      end; destruct cb; simpl;
      repeat match goal with H : invoked _ = [] |- _ => rewrite H; clear H end;
      done.
Qed.

Lemma page_callback_forwarded_witness :
  invoked (getCurrentPosition_success
             (on_pagehide initialPage) (Some 5%positive) (JSObject 1)
             1700000000000 1700000000000).2
  = [(5%positive, JSObject 1)].
Proof.
  destruct (page_callback_forwarded (on_pagehide initialPage)
              (OneShotHandler (Some 5%positive)) (JSObject 1)
              1700000000000 1700000000000) as [H _].
  exact (H _ _ eq_refl).
Defined.

(** ** Media capture *)

Lemma notify_other_key_not_duplicate (m : gmap string Z) (pt a pt' a' : string)
    (now now' : Z) :
  eventKey pt a ≠ eventKey pt' a' →
  ¬ duplicate m pt' a' now' →
  ¬ duplicate (notifyPermissionUsage m pt a now).1 pt' a' now'.
Proof.
  intros Hne Hnd (t0 & Hk & Hlt). apply Hnd. exists t0. split; [|done].
  destruct (duplicate_dec m pt a now) as [Hd|Hd].
  - by rewrite notify_duplicate in Hk.
  - rewrite notify_fresh in Hk by done. simpl in Hk.
    rewrite purge_lookup, lookup_insert_ne in Hk by done.
    destruct (m !! eventKey pt' a') as [t|]; [|done].
    by case_decide.
Qed.

(** X3. A granted [getUserMedia] resolves the caller's promise with the
    stream it got, signals [camera/active] if the constraints ask for video
    and then [microphone/active] if they ask for audio, and nothing else;
    when both are asked for and neither key is a duplicate, exactly these
    two events are dispatched, in this order: the camera signal never
    debounces the microphone signal. *)
Theorem media_grant_signals (pg : Page) (c : option MediaStreamConstraints)
    (stream : JSValue) (nowCamera nowMicrophone : Z) :
  let r := getUserMedia pg c (Normal stream) nowCamera nowMicrophone in
  r.2 = Normal stream ∧
  signals r.1.2
  = (if wants_video c then [("camera", "active")] else [])
    ++ (if wants_audio c then [("microphone", "active")] else []) ∧
  (wants_video c = true → wants_audio c = true →
   ¬ duplicate (loggedEvents pg) "camera" "active" nowCamera →
   ¬ duplicate (loggedEvents pg) "microphone" "active" nowMicrophone →
   dispatched r.1.2
   = [mkDetail "camera" "active"; mkDetail "microphone" "active"]).
Proof.
  simpl. unfold getUserMedia, notify_media.
  destruct (wants_video c), (wants_audio c);
    repeat match goal with
    | |- context [notify ?p ?pt ?a ?n] =>
        let H := fresh "Hn" in
        pose proof (notify_spec p pt a n) as H;
        destruct (notify p pt a n) as [? ?]; simpl in H
    end; simpl;
    repeat match goal with H : _ ∧ _ |- _ => destruct H end;
    repeat match goal with H : signals _ = _ |- _ => rewrite H; clear H end;
    (split; [done|]); (split; [done|]); try done.
  intros _ _ Hcam Hmic.
  match goal with
  | H1 : (loggedEvents ?p1, dispatched ?o1) = notifyPermissionUsage _ "camera" _ _,
    H2 : (loggedEvents _, dispatched ?o2) = notifyPermissionUsage _ "microphone" _ _
    |- _ =>
      assert (Hmap : loggedEvents p1
                     = (notifyPermissionUsage (loggedEvents pg) "camera"
                          "active" nowCamera).1) by (by rewrite <- H1);
      rewrite notify_fresh in H1 by done;
      rewrite notify_fresh in H2
        by (rewrite Hmap; by apply notify_other_key_not_duplicate);
      injection H1 as _ ->; injection H2 as _ ->
  end.
  done.
Qed.

Lemma media_grant_signals_witness :
  dispatched
    (getUserMedia initialPage (Some (mkConstraints (JSBool true) (JSBool true)))
       (Normal (JSObject 1)) 1700000000000 1700000000000).1.2
  = [mkDetail "camera" "active"; mkDetail "microphone" "active"].
Proof.
  destruct (media_grant_signals initialPage
              (Some (mkConstraints (JSBool true) (JSBool true)))
              (JSObject 1) 1700000000000 1700000000000) as (_ & _ & H).
  apply H; [done | done | |]; intros (t0 & Hk & _); by vm_compute in Hk.
Defined.

(** ** What the clean-up loop guarantees *)

(** X4. After a call that dispatched, the debounce map holds the key of the
    call at the clock read of the call, and beyond it only entries that were
    there before and are at most 5000ms old: an accepted call leaves no
    entry older than 5000ms behind. *)
Theorem accepted_call_bounds_entries (m : gmap string Z) (pt a : string)
    (now : Z) :
  (notifyPermissionUsage m pt a now).2 ≠ [] →
  (notifyPermissionUsage m pt a now).1 !! eventKey pt a = Some now ∧
  ∀ k ts, (notifyPermissionUsage m pt a now).1 !! k = Some ts →
          now - ts ≤ 5000 ∧ (k = eventKey pt a ∨ m !! k = Some ts).
Proof.
  intros Hacc.
  assert (Hfresh : ¬ duplicate m pt a now).
  { intros Hd. apply Hacc. by apply notify_dispatched_nil. }
  rewrite notify_fresh by done. simpl. split; [apply purge_insert_same|].
  intros k ts. rewrite purge_lookup.
  destruct (decide (eventKey pt a = k)) as [<-|Hne].
  - rewrite lookup_insert_eq. case_decide; [done|]. intros [= <-].
    split; [lia | by left].
  - rewrite lookup_insert_ne by done.
    destruct (m !! k) as [t|]; [|done]. case_decide; [done|].
    intros [= <-]. split; [lia | by right].
Qed.

Lemma accepted_call_bounds_entries_witness :
  (notifyPermissionUsage {[ "camera-active"%string := 1000 ]}
     "microphone" "active" 7000).1 !! "camera-active"%string = None.
Proof.
  destruct (accepted_call_bounds_entries {[ "camera-active"%string := 1000 ]}
              "microphone" "active" 7000) as [_ H]; [by vm_compute|].
  destruct (_ !! "camera-active"%string) as [ts|] eqn:Hk; [|done].
  destruct (H _ _ Hk) as [Hle [Heq|Hold]]; [by vm_compute in Heq|].
  vm_compute in Hold. injection Hold as <-. lia.
Defined.

(** ** Signals of other keys, and the distance between events of a key *)

Lemma debounce_rule_across_other_keys_witness :
  last (decisions notifyPermissionUsage
          (notifyPermissionUsage ∅ "camera" "active" 1000).1
          [mkRawSignal "microphone" "active" 1100;
           mkRawSignal "camera" "active" 1400])
  = Some [].
Proof.
  apply (debounce_rule_across_other_keys ∅ "camera" "active" 1000 1400
           [mkRawSignal "microphone" "active" 1100]).
  - by vm_compute.
  - repeat constructor. by vm_compute.
  - simpl. lia.
Defined.

Lemma kept_or_purged_mono (k : string) (T0 t now : Z) (m : gmap string Z) :
  t ≤ now → kept_or_purged k T0 t m → kept_or_purged k T0 now m.
Proof. intros Hle [?|[? ?]]; [by left | right; split; [done | lia]]. Qed.

Lemma spacing_from_entry (k : string) (sigs : list RawSignal) :
  ∀ (T0 t : Z) (m : gmap string Z),
    kept_or_purged k T0 t m →
    chronological t sigs →
    Forall2 (λ s d, sigKey s = k → d ≠ [] → 500 ≤ observedAt s - T0)
      sigs (decisions notifyPermissionUsage m sigs).
Proof.
  induction sigs as [|s rest IH]; intros T0 t m Hk Hchr; [constructor|].
  destruct Hchr as [Hle Hchr]. simpl.
  pose proof (other_key_keeps_or_purges k T0 t (observedAt s) m
                (sigKind s) (sigAction s)) as Hother.
  destruct (duplicate_dec m (sigKind s) (sigAction s) (observedAt s)) as [Hd|Hd].
  - rewrite notify_duplicate by done. constructor; [done|].
    apply (IH T0 (observedAt s)); [|done]. by apply (kept_or_purged_mono k T0 t).
  - pose proof (notify_fresh _ _ _ _ Hd) as Heq.
    destruct (notifyPermissionUsage m (sigKind s) (sigAction s) (observedAt s))
      as [m' evs]. injection Heq as -> ->.
    destruct (decide (sigKey s = k)) as [Hkey|Hkey].
    + assert (Hfar : 500 ≤ observedAt s - T0).
      { destruct Hk as [Hs|[_ Hold]]; [|lia].
        destruct (Z.lt_ge_cases (observedAt s - T0) 500); [|lia].
        exfalso. apply Hd. exists T0. unfold sigKey in Hkey.
        rewrite Hkey. by split. }
      constructor; [done|].
      eapply Forall2_impl.
      * apply (IH (observedAt s) (observedAt s)); [|done].
        left. unfold sigKey in Hkey. rewrite <- Hkey. apply purge_insert_same.
      * simpl. intros s' d' Himp Hk' Hd'. specialize (Himp Hk' Hd'). lia.
    + constructor; [done|].
      apply (IH T0 (observedAt s)); [|done].
      by apply Hother.
Qed.

(** X5. In a sequence of signals evaluated in the order of their clock
    reads, every dispatched event of a key comes at least 500ms after an
    earlier dispatched event of the same key, whatever signals of this or
    of other keys lie between the two. *)
Theorem events_of_a_key_are_spaced (m : gmap string Z) (pt a : string)
    (T0 : Z) (rest : list RawSignal) :
  (notifyPermissionUsage m pt a T0).2 ≠ [] →
  chronological T0 rest →
  Forall2 (λ s d, sigKey s = eventKey pt a → d ≠ [] → 500 ≤ observedAt s - T0)
    rest
    (decisions notifyPermissionUsage (notifyPermissionUsage m pt a T0).1 rest).
Proof.
  intros Hacc Hchr. apply (spacing_from_entry _ _ T0 T0); [|done].
  left. by apply accepted_call_bounds_entries.
Qed.

Lemma events_of_a_key_are_spaced_witness :
  Forall2 (λ s d, sigKey s = eventKey "location" "accessed" → d ≠ [] →
                  500 ≤ observedAt s - 1000)
    [mkRawSignal "location" "accessed" 1300;
     mkRawSignal "location" "accessed" 1600]
    (decisions notifyPermissionUsage
       (notifyPermissionUsage ∅ "location" "accessed" 1000).1
       [mkRawSignal "location" "accessed" 1300;
        mkRawSignal "location" "accessed" 1600]).
Proof.
  apply (events_of_a_key_are_spaced ∅ "location" "accessed" 1000).
  - by vm_compute.
  - simpl. lia.
Defined.

(** ** [activeWatchers] is written, never read *)

(** X6. No decision of the script depends on [activeWatchers]: from two
    script states that differ at most in that set, every turn makes the same
    signals, dispatches the same events, calls the same page callbacks and
    leaves two states that again differ at most in that set.  In particular
    a callback delivered for a watch that was cleared is treated like the
    callback of any other watch. *)
Theorem activeWatchers_never_read (pg1 pg2 : Page) (i : PageInput) :
  same_but_watchers pg1 pg2 →
  match step pg1 i, step pg2 i with
  | Some (p1, o1), Some (p2, o2) => o1 = o2 ∧ same_but_watchers p1 p2
  | None, None => True
  | _, _ => False
  end.
Proof.
  destruct pg1 as [m1 [l1 w1 u1 v1] c1], pg2 as [m2 [l2 w2 u2 v2] c2].
  unfold same_but_watchers. simpl. intros (-> & -> & -> & -> & ->).
  destruct i as [c [stream|err] n1 n2|c cb st n1 n2|kind now
                |cb ecb opts [wid|err]
                |[cb|cell cb] pos now nowN|wid| | |vs now
                |[v|err] now|[v|err] now|[v|err] now
                |[v|err] now|orig now];
    simpl;
    unfold getUserMedia, legacyGetUserMedia_success, notify_media,
      track_stopped, watchPosition, clearWatch, on_beforeunload, on_pagehide,
      on_visibilitychange, readText, read, writeText, write, Notification,
      getCurrentPosition_success, watchPosition_success,
      within_restore_window, notify, set_loggedEvents, set_lastLogTime,
      set_activeWatchers, set_isUnloading, set_lastVisibilityChange,
      set_callbackCount;
    simpl;
    repeat first
      [ match goal with
        | |- context [notifyPermissionUsage ?m ?pt ?a ?n] =>
            destruct (notifyPermissionUsage m pt a n) as [? ?]; simpl
        end
      | match goal with
        | |- context [?l !! ?n] =>
            match type of l with list Z => destruct (l !! n); simpl end
        end
      | match goal with
        | |- context [if ?b then _ else _] => destruct b; simpl
        end ];
    done.
Qed.

Lemma activeWatchers_never_read_witness :
  let pg := (watchPosition initialPage None JSUndefined JSUndefined
               (WatchId 3)).1.1 in
  match step pg (InPosition (WatchHandler 0 None) (JSObject 1) 1700000000000
                   1700000000000),
        step (clearWatch pg 3).1.1
             (InPosition (WatchHandler 0 None) (JSObject 1) 1700000000000
                1700000000000)
  with
  | Some (p1, o1), Some (p2, o2) => o1 = o2 ∧ same_but_watchers p1 p2
  | None, None => True
  | _, _ => False
  end.
Proof.
  intros pg. apply (activeWatchers_never_read pg (clearWatch pg 3).1.1).
  by vm_compute.
Defined.

(** ** A new watch and its counter *)

(** X7. [watchPosition] returns the id the wrapped capability returned,
    records it in [activeWatchers] and hands the capability a handler with a
    counter of its own, at 0.  Unless the page is unloading or in the
    restore window, the first callback of that handler is accepted by the
    location rule whatever [lastLogTime] is, and sets [lastLogTime] to its
    clock read. *)
Theorem new_watch_first_callback_accepted (pg : Page)
    (cb : option PageCallback) (ecb opts pos : JSValue) (id now nowN : Z) :
  let r := watchPosition pg cb ecb opts (WatchId id) in
  r.2 = WatchId id ∧
  id ∈ activeWatchers (locationTracking r.1.1) ∧
  callbackCount r.1.1 = callbackCount pg ++ [0] ∧
  onSuccess r.1.2 = WatchHandler (length (callbackCount pg)) cb ∧
  (isUnloading (locationTracking pg) = false →
   within_restore_window (locationTracking pg) now = false →
   ∃ pg' o,
     run_handler r.1.1 (onSuccess r.1.2) pos now nowN = Some (pg', o) ∧
     location_accepted o ∧
     lastLogTime (locationTracking pg') = now).
Proof.
  simpl. split; [done|]. split; [set_solver|]. split; [done|]. split; [done|].
  intros Hu Hw.
  set (pg1 := set_activeWatchers _ _).
  assert (Hcell : callbackCount pg1 !! length (callbackCount pg) = Some 0).
  { simpl. by rewrite lookup_app_r, Nat.sub_diag by lia. }
  destruct (watch_rule pg1 _ 0 cb pos now nowN Hcell Hu Hw)
    as (pg' & o & Heq & _ & Hiff & Hacc & _).
  exists pg', o. split; [done|].
  assert (Ha : location_accepted o) by (apply Hiff; by left).
  split; [done|]. by destruct (Hacc Ha).
Qed.

Lemma new_watch_first_callback_accepted_witness :
  let pg := (getCurrentPosition_success initialPage None (JSObject 1)
               1700000000000 1700000000000).1 in
  ∃ pg' o,
    run_handler (watchPosition pg None JSUndefined JSUndefined (WatchId 4)).1.1
      (WatchHandler 0 None) (JSObject 2) 1700000001000 1700000001000
    = Some (pg', o) ∧
    location_accepted o ∧
    lastLogTime (locationTracking pg') = 1700000001000.
Proof.
  intros pg.
  destruct (new_watch_first_callback_accepted pg None JSUndefined JSUndefined
              (JSObject 2) 4 1700000001000 1700000001000)
    as (_ & _ & _ & _ & H).
  exact (H eq_refl eq_refl).
Defined.

(** X8. A callback of a watch that the restore window suppresses is counted
    all the same: when the first callback of a watch falls in the window,
    the next callback of that watch is no first callback any more and is
    accepted only if at least 5000ms have passed since the last accepted
    location signal.  A callback stopped by the unloading flag is not
    counted. *)
Theorem suppressed_callback_is_counted (pg : Page) (cell : nat) (count : Z)
    (cb : option PageCallback) (pos : JSValue) (now nowN : Z) :
  callbackCount pg !! cell = Some count →
  (isUnloading (locationTracking pg) = true →
   watchPosition_success pg cell cb pos now nowN
   = Some (pg, call_if_present cb pos)) ∧
  (isUnloading (locationTracking pg) = false →
   within_restore_window (locationTracking pg) now = true →
   ∃ pg1,
     watchPosition_success pg cell cb pos now nowN
     = Some (pg1, call_if_present cb pos) ∧
     callbackCount pg1 !! cell = Some (count + 1) ∧
     locationTracking pg1 = locationTracking pg ∧
     (count = 0 →
      ∀ pos' now' nowN',
        within_restore_window (locationTracking pg) now' = false →
        ∃ pg2 o,
          watchPosition_success pg1 cell cb pos' now' nowN' = Some (pg2, o) ∧
          (location_accepted o
           ↔ 5000 ≤ now' - lastLogTime (locationTracking pg)))).
Proof.
  intros Hcell. split.
  - intros Hu. unfold watchPosition_success. rewrite Hcell. simpl.
    by rewrite Hu.
  - intros Hu Hw. unfold watchPosition_success at 1. rewrite Hcell. simpl.
    rewrite Hu, Hw. eexists. split; [done|].
    assert (Hc1 : <[cell := count + 1]> (callbackCount pg) !! cell
                  = Some (count + 1)).
    { apply list_lookup_insert_eq. by eapply lookup_lt_Some. }
    split; [done|]. split; [done|].
    intros -> pos' now' nowN' Hw'.
    set (pg1 := set_callbackCount _ pg).
    destruct (watch_rule pg1 cell (0 + 1) cb pos' now' nowN' Hc1 Hu Hw')
      as (pg2 & o & Heq & _ & Hiff & _).
    exists pg2, o. split; [done|]. rewrite Hiff. simpl. lia.
Qed.

Lemma suppressed_callback_is_counted_witness :
  let pg := on_visibilitychange
              (watchPosition
                 (getCurrentPosition_success initialPage None (JSObject 1)
                    1700000000000 1700000000000).1
                 None JSUndefined JSUndefined (WatchId 4)).1.1
              "visible" 1700000001000 in
  ∃ pg1,
    watchPosition_success pg 0 None (JSObject 2) 1700000001500 1700000001500
    = Some (pg1, silent) ∧
    ∃ pg2 o,
      watchPosition_success pg1 0 None (JSObject 3) 1700000003500 1700000003500
      = Some (pg2, o) ∧
      ¬ location_accepted o.
Proof.
  intros pg.
  destruct (suppressed_callback_is_counted pg 0 0 None (JSObject 2)
              1700000001500 1700000001500 eq_refl) as [_ H].
  destruct (H eq_refl eq_refl) as (pg1 & Heq & _ & _ & Hnext).
  exists pg1. split; [exact Heq|].
  destruct (Hnext eq_refl (JSObject 3) 1700000003500 1700000003500 eq_refl)
    as (pg2 & o & Heq2 & Hiff).
  exists pg2, o. split; [exact Heq2|].
  rewrite Hiff. vm_compute. intros Hle. by apply Hle.
Defined.

(** * Properties of the background worker *)

(** ** The log store over records *)

Lemma saveLog_is_saveLogOf : saveLog = saveLogOf.
Proof. reflexivity. Qed.

Lemma saveLogOf_take {A} (logs : option (list A)) (e : A) :
  saveLogOf logs e
  = Some (take 1000 (e :: match logs with Some l => l | None => [] end)).
Proof.
  unfold saveLogOf.
  set (l := e :: match logs with Some l => l | None => [] end).
  destruct (Z.ltb_spec 1000 (Z.of_nat (length l))); [done|].
  f_equal. symmetry. apply take_ge. lia.
Qed.

(** ** The cooldown of desktop notifications *)


Lemma showNotification_in_cooldown tracker e now :
  in_cooldown tracker e now →
  Background.showNotification tracker e now = (tracker, []).
Proof.
  intros (t0 & Hk & Hlt). unfold Background.showNotification.
  fold (notificationKey e). rewrite Hk.
  destruct (Z.ltb_spec (now - t0) Background.NOTIFICATION_COOLDOWN);
    [done | unfold Background.NOTIFICATION_COOLDOWN in *; lia].
Qed.

Lemma showNotification_shown tracker e now :
  ¬ in_cooldown tracker e now →
  Background.showNotification tracker e now
  = (filter (λ kv : string * Z, ¬ (now - kv.2 > 10000))
       (<[notificationKey e := now]> tracker),
     [(Background.permissionType e, Background.domain e)]).
Proof.
  intros Hn. unfold Background.showNotification. fold (notificationKey e).
  destruct (tracker !! notificationKey e) as [t0|] eqn:Hk; [|done].
  destruct (Z.ltb_spec (now - t0) Background.NOTIFICATION_COOLDOWN); [|done].
  exfalso. apply Hn. exists t0. by unfold Background.NOTIFICATION_COOLDOWN in *.
Qed.

Lemma in_cooldown_dec tracker e now :
  in_cooldown tracker e now ∨ ¬ in_cooldown tracker e now.
Proof.
  unfold in_cooldown.
  destruct (tracker !! notificationKey e) as [t0|]; [|right; intros (? & [=] & ?)].
  destruct (Z.lt_ge_cases (now - t0) 3000);
    [left; eauto | right; intros (? & [= <-] & ?); lia].
Qed.



(** ** Handling a usage message *)

(** A usage handler that runs to its end with no other handler in between
    logs and counts, whether or not a notification is created: the stored
    logs get the new entry in front (followed by the first 999 of the
    entries stored before), the counter of unseen logs grows by one and the
    settings are untouched.  At most one notification is created, exactly
    when the stored [notificationsEnabled] is anything but [false] (nothing
    stored included) and the type and domain are not in their cooldown. *)
Lemma usage_is_always_logged (st : Background.State)
    (data : Content.LogData) (env : Background.Env) :
  let r := Background.handlePermissionUsage st data env in
  ∃ e,
    Background.getLogs r.1 = e :: take 999 (Background.getLogs st) ∧
    Background.id e = Background.freshId env ∧
    Background.permissionType e = Content.permissionType data ∧
    Background.action e = Content.action data ∧
    Background.domain e = Content.domain data ∧
    Background.url e = Content.url data ∧
    Background.timestamp e = Content.timestamp data ∧
    Background.newLogsCount r.1 = Background.newLogsCount st + 1 ∧
    Background.settings r.1 = Background.settings st ∧
    (r.2 = [] ∨ r.2 = [(Content.permissionType data, Content.domain data)]) ∧
    (r.2 ≠ []
     ↔ Background.notificationsEnabled (Background.getSettings st)
       ≠ JSBool false
       ∧ ¬ in_cooldown (Background.notificationTracker st) e
             (Background.now env)).
Proof.
  cbv zeta. unfold Background.handlePermissionUsage, Background.saveLog.
  set (e := Background.mkLogEntry _ _ _ _ _ _ _ _ _ _).
  rewrite saveLogOf_take. exists e.
  change (Background.getSettings _) with (Background.getSettings st).
  assert (Hnf : Background.not_false
                  (Background.notificationsEnabled (Background.getSettings st))
                = true
                ↔ Background.notificationsEnabled (Background.getSettings st)
                  ≠ JSBool false).
  { destruct (Background.notificationsEnabled _) as [| |[|]| | | |];
      simpl; split; done. }
  destruct (Background.not_false _) eqn:Hen.
  - destruct (in_cooldown_dec (Background.notificationTracker st) e
                (Background.now env)) as [Hc|Hc]; simpl in Hc |- *.
    + rewrite showNotification_in_cooldown by done. simpl.
      repeat (split; [done|]). split; [by left|]. split; [done|].
      intros [_ Hn]. done.
    + rewrite showNotification_shown by done. simpl.
      repeat (split; [done|]). split; [by right|]. split; [|done].
      intros _. split; [by apply Hnf | done].
  - simpl.
    repeat (split; [done|]). split; [by left|]. split; [done|].
    intros [Hn _]. apply Hnf in Hn. done.
Qed.

(** X11. From the page to the store: an event [notifyPermissionUsage]
    dispatched, picked up by the content script and handled by the worker,
    is the first entry of the stored logs, with the permission type and the
    action of the signal ([accessed] for an empty action), the host name,
    address and title of the page, the time stamp the content script took
    and the visibility of the page at that time. *)
Theorem detected_event_reaches_the_log (m : gmap string Z) (pt a : string)
    (t : Z) (d : Detail) (ctx : Content.PageContext) (isoNow : string)
    (st : Background.State) (env : Background.Env) :
  d ∈ (notifyPermissionUsage m pt a t).2 →
  let data := Content.on_PERMISSION_DETECTED ctx isoNow d in
  ∃ e rest,
    Background.getLogs (Background.handlePermissionUsage st data env).1
    = e :: rest ∧
    Background.permissionType e = pt ∧
    Background.action e = action_or_accessed a ∧
    Background.domain e = Content.hostname ctx ∧
    Background.url e = Content.href ctx ∧
    Background.timestamp e = isoNow ∧
    Background.pageTitle e = JSString (Content.title ctx) ∧
    Background.isVisible e
    = JSBool (String.eqb (Content.visibilityState ctx) "visible") ∧
    Background.metadata e = emptyObject.
Proof.
  intros Hd data.
  assert (Hdet : d = mkDetail pt (action_or_accessed a)).
  { destruct (duplicate_dec m pt a t) as [Hdup|Hfresh].
    - rewrite notify_duplicate in Hd by done. by apply elem_of_nil in Hd.
    - rewrite notify_fresh in Hd by done. by apply list_elem_of_singleton in Hd. }
  subst d.
  destruct (usage_is_always_logged st data env)
    as (e & Hlogs & _ & Hpt & Hact & Hdom & Hurl & Hts & _).
  exists e, (take 999 (Background.getLogs st)). split; [done|].
  split; [done|]. split; [done|]. split; [done|]. split; [done|].
  split; [done|].
  assert (He : e :: take 999 (Background.getLogs st)
               = Background.getLogs
                   (Background.handlePermissionUsage st data env).1) by done.
  clear Hlogs Hpt Hact Hdom Hurl Hts.
  unfold Background.handlePermissionUsage in He.
  destruct (Background.not_false _) in He;
    [destruct (Background.showNotification _ _ _) in He|];
    unfold Background.saveLog in He; rewrite saveLogOf_take in He;
    simpl in He; injection He as ->; simpl;
    unfold Background.pageTitle_or_empty; simpl;
    destruct (String.eqb (Content.title ctx) "") eqn:Ht; simpl; try done;
    apply String.eqb_eq in Ht; by rewrite Ht.
Qed.

Lemma detected_event_reaches_the_log_witness :
  let ctx := Content.mkPageContext "example.org" "https://example.org/map"
               "Map" "hidden" in
  let data := Content.on_PERMISSION_DETECTED ctx "2026-01-01T00:00:00.000Z"
                (mkDetail "location" "accessed") in
  ∃ e rest,
    Background.getLogs
      (Background.handlePermissionUsage (Background.startState None None) data
         (Background.mkEnv "id-1" "Jan 1, 2026" 1700000000000)).1
    = e :: rest ∧
    Background.permissionType e = "location"%string ∧
    Background.isVisible e = JSBool false.
Proof.
  intros ctx data.
  destruct (detected_event_reaches_the_log ∅ "location" "accessed"
              1700000000000 (mkDetail "location" "accessed") ctx
              "2026-01-01T00:00:00.000Z" (Background.startState None None)
              (Background.mkEnv "id-1" "Jan 1, 2026" 1700000000000))
    as (e & rest & Hl & Hpt & _ & _ & _ & _ & _ & Hv & _).
  { vm_compute. apply list_elem_of_here. }
  exists e, rest. split; [exact Hl|]. split; [exact Hpt | exact Hv].
Defined.

(** ** The badge and the bound of the store, over any series of messages *)

Lemma pretty_two_digits (n : Z) :
  0 < n ≤ 99 → (String.length (pretty n) ≤ 2)%nat.
Proof.
  intros Hn.
  assert (Hall : Forall (λ k : Z, (String.length (pretty k) ≤ 2)%nat)
                   (seqZ 1 99)).
  { apply (bool_decide_unpack _). by vm_compute. }
  rewrite Forall_forall in Hall. apply Hall. apply elem_of_seqZ. lia.
Qed.

Lemma pretty_not_empty (n : Z) : 0 < n ≤ 99 → pretty n ≠ ""%string.
Proof.
  intros Hn.
  assert (Hall : Forall (λ k : Z, pretty k ≠ ""%string) (seqZ 1 99)).
  { apply (bool_decide_unpack _). by vm_compute. }
  rewrite Forall_forall in Hall. apply Hall. apply elem_of_seqZ. lia.
Qed.

Lemma badge_of_length (n : Z) : (String.length (badge_of n) ≤ 3)%nat.
Proof.
  unfold badge_of. repeat case_decide; simpl; [lia | | lia].
  pose proof (pretty_two_digits n). lia.
Qed.

Lemma badge_text_badge_of (n : Z) :
  (if 0 <? n then if 99 <? n then "99+"%string else pretty n else ""%string)
  = badge_of n.
Proof.
  unfold badge_of.
  destruct (Z.ltb_spec 0 n), (Z.ltb_spec 99 n);
    repeat case_decide; try done; lia.
Qed.

Lemma onMessage_worker_ok (st : Background.State) (message : Background.Message)
    (env : Background.Env) :
  worker_ok st → worker_ok (Background.onMessage st message env).1.1.
Proof.
  intros (Hpos & Hbadge & Hlen). destruct message as [data| | | |s| |ty]; simpl.
  - destruct (usage_is_always_logged st data env)
      as (e & Hlogs & _ & _ & _ & _ & _ & _ & Hcount & _).
    assert (Hb : Background.badgeText
                   (Background.handlePermissionUsage st data env).1
                 = badge_of (Background.newLogsCount st + 1)).
    { unfold Background.handlePermissionUsage.
      destruct (Background.not_false _);
        [destruct (Background.showNotification _ _ _)|];
        simpl; apply badge_text_badge_of. }
    destruct (Background.handlePermissionUsage st data env) as [st' alerts].
    simpl in *. unfold worker_ok. rewrite Hcount, Hlogs, Hb. simpl.
    rewrite length_take. split; [lia|]. split; [done | lia].
  - done.
  - unfold worker_ok. split; [done|]. split; [|simpl; lia].
    by vm_compute.
  - done.
  - done.
  - unfold worker_ok. simpl. done.
  - done.
Qed.

(** X12. Whatever messages the worker serves, one after the other, from a
    consistent state (the state it starts in, with at most 1000 entries
    stored, is one): the counter of unseen logs is never negative, the badge
    shows nothing for 0, the counter in decimal up to 99 and [99+] beyond,
    so never more than three characters, and the store never holds more
    than 1000 entries. *)
Theorem worker_stays_consistent (st : Background.State)
    (messages : list (Background.Message * Background.Env)) :
  worker_ok st →
  let st' := (Background.serve st messages).1 in
  worker_ok st' ∧
  (String.length (Background.badgeText st') ≤ 3)%nat ∧
  (Background.badgeText st' = ""%string ↔ Background.newLogsCount st' = 0).
Proof.
  revert st. induction messages as [|[message env] rest IH]; intros st Hok.
  - simpl. split; [done|]. destruct Hok as (Hpos & Hbadge & _).
    rewrite Hbadge. split; [apply badge_of_length|].
    unfold badge_of. repeat case_decide; split; try done; try lia.
    intros Hp. exfalso.
    pose proof (pretty_not_empty (Background.newLogsCount st)). naive_solver lia.
  - pose proof (onMessage_worker_ok st message env Hok) as Hok1.
    specialize (IH _ Hok1). simpl.
    destruct (Background.onMessage st message env) as [[st1 response] alerts].
    simpl in IH.
    destruct (Background.serve st1 rest) as [st2 answers]. done.
Qed.

Lemma worker_stays_consistent_witness :
  let data := Content.mkLogData "camera" "example.org" "https://example.org/"
                "2026-01-01T00:00:00.000Z" "active" emptyObject (JSString "")
                (JSBool true) in
  Background.badgeText
    (Background.serve (Background.startState None None)
       [(Background.PERMISSION_USAGE data,
         Background.mkEnv "a" "d" 1700000000000);
        (Background.PERMISSION_USAGE data,
         Background.mkEnv "b" "d" 1700000000100)]).1
  ≠ ""%string.
Proof.
  intros data.
  destruct (worker_stays_consistent (Background.startState None None)
              [(Background.PERMISSION_USAGE data,
                Background.mkEnv "a" "d" 1700000000000);
               (Background.PERMISSION_USAGE data,
                Background.mkEnv "b" "d" 1700000000100)])
    as (_ & _ & Hiff).
  { split; [done|]. split; [done | simpl; lia]. }
  intros Hempty. apply Hiff in Hempty. by vm_compute in Hempty.
Defined.

(** ** Settings *)

Lemma serve_app (st : Background.State)
    (l1 l2 : list (Background.Message * Background.Env)) :
  Background.serve st (l1 ++ l2)
  = ((Background.serve (Background.serve st l1).1 l2).1,
     (Background.serve st l1).2
     ++ (Background.serve (Background.serve st l1).1 l2).2).
Proof.
  revert st. induction l1 as [|[message env] rest IH]; intros st; simpl.
  - by destruct (Background.serve st l2).
  - destruct (Background.onMessage st message env) as [[st1 response] alerts].
    rewrite IH. by destruct (Background.serve st1 rest).
Qed.

Lemma onMessage_settings (st : Background.State) (message : Background.Message)
    (env : Background.Env) :
  is_update_settings message = false →
  Background.settings (Background.onMessage st message env).1.1
  = Background.settings st.
Proof.
  intros Hm. destruct message; try done. simpl.
  destruct (usage_is_always_logged st data env)
    as (e & _ & _ & _ & _ & _ & _ & _ & _ & Hs & _).
  by destruct (Background.handlePermissionUsage st data env).
Qed.

Lemma serve_settings (messages : list (Background.Message * Background.Env))
    (st : Background.State) :
  Forall (λ me, is_update_settings me.1 = false) messages →
  Background.settings (Background.serve st messages).1 = Background.settings st.
Proof.
  revert st. induction messages as [|[message env] rest IH]; intros st Hall.
  - done.
  - apply Forall_cons in Hall as [Hm Hrest]. simpl in *.
    pose proof (onMessage_settings st message env Hm) as Hs.
    destruct (Background.onMessage st message env) as [[st1 response] alerts].
    specialize (IH st1 Hrest).
    destruct (Background.serve st1 rest) as [st2 answers].
    simpl in *. congruence.
Qed.

(** X13. Settings are replaced as a whole and read back as they were
    written: after [UPDATE_SETTINGS], and whatever usage, log, badge or
    unknown messages follow, [GET_SETTINGS] answers the settings last
    written; with nothing stored it answers notifications enabled. *)
Theorem settings_round_trip (st : Background.State)
    (newSettings : Background.Settings) (env env' : Background.Env)
    (between : list (Background.Message * Background.Env)) :
  Forall (λ me, is_update_settings me.1 = false) between →
  last (Background.serve st
          ((Background.UPDATE_SETTINGS newSettings, env)
           :: between ++ [(Background.GET_SETTINGS, env')])).2
  = Some (Background.SettingsResponse newSettings, []) ∧
  (Background.settings st = None →
   last (Background.serve st (between ++ [(Background.GET_SETTINGS, env')])).2
   = Some (Background.SettingsResponse
             (Background.mkSettings (JSBool true)), [])).
Proof.
  intros Hall. split.
  - change (Background.serve st (?m :: ?l))
      with (let '(st1, response, alerts) :=
              Background.onMessage st m.1 m.2 in
            let '(st2, answers) := Background.serve st1 l in
            (st2, (response, alerts) :: answers)).
    simpl. rewrite serve_app. simpl.
    pose proof (serve_settings between
                  (Background.updateSettings st newSettings) Hall) as Hs.
    destruct (Background.serve _ between) as [st1 answers]. simpl in *.
    rewrite last_cons, last_snoc. unfold Background.getSettings.
    by rewrite Hs.
  - intros Hnone. rewrite serve_app. simpl.
    pose proof (serve_settings between st Hall) as Hs.
    destruct (Background.serve st between) as [st1 answers]. simpl in *.
    rewrite last_snoc. unfold Background.getSettings.
    by rewrite Hs, Hnone.
Qed.

Lemma settings_round_trip_witness :
  let data := Content.mkLogData "camera" "example.org" "https://example.org/"
                "2026-01-01T00:00:00.000Z" "active" emptyObject (JSString "")
                (JSBool true) in
  let env := Background.mkEnv "a" "d" 1700000000000 in
  last (Background.serve (Background.startState None None)
          [(Background.UPDATE_SETTINGS (Background.mkSettings (JSBool false)),
            env);
           (Background.PERMISSION_USAGE data, env);
           (Background.CLEAR_LOGS, env);
           (Background.GET_SETTINGS, env)]).2
  = Some (Background.SettingsResponse
            (Background.mkSettings (JSBool false)), []).
Proof.
  intros data env.
  apply (proj1 (settings_round_trip (Background.startState None None)
                  (Background.mkSettings (JSBool false)) env env
                  [(Background.PERMISSION_USAGE data, env);
                   (Background.CLEAR_LOGS, env)]
                  ltac:(by repeat constructor))).
Defined.

(** * Properties of the popup and the dashboard *)

(** ** Relative times *)

Lemma nested_floors (d : Z) :
  d / 1000 / 60 = d / 60000 ∧
  d / 1000 / 60 / 60 = d / 3600000 ∧
  d / 1000 / 60 / 60 / 24 = d / 86400000.
Proof. rewrite !Z.div_div by lia. done. Qed.

(** X15. [getTimeAgo] shows [Just now] for anything younger than a minute
    (a time stamp in the future included), then whole minutes from 1 to 59,
    whole hours from 1 to 23, [1 day ago], and 2 to 6 [days ago], each
    rounded down, and the locale date from seven days on. *)
Theorem getTimeAgo_ranges (nowMs thenMs : Z) (localeDate : string) :
  let d := nowMs - thenMs in
  let shown := Popup.getTimeAgo nowMs thenMs localeDate in
  (d < 60000 → shown = "Just now"%string) ∧
  (60000 ≤ d < 3600000 →
   1 ≤ d / 60000 ≤ 59 ∧ shown = (pretty (d / 60000) +:+ " min ago")%string) ∧
  (3600000 ≤ d < 86400000 →
   1 ≤ d / 3600000 ≤ 23 ∧
   shown = (pretty (d / 3600000) +:+ " hr ago")%string) ∧
  (86400000 ≤ d < 172800000 → shown = "1 day ago"%string) ∧
  (172800000 ≤ d < 604800000 →
   2 ≤ d / 86400000 ≤ 6 ∧
   shown = (pretty (d / 86400000) +:+ " days ago")%string) ∧
  (604800000 ≤ d → shown = localeDate).
Proof.
  intros d shown. subst shown. unfold Popup.getTimeAgo. fold d.
  destruct (nested_floors d) as (-> & -> & ->).
  pose proof (Z.div_le_mono d 59999 1000 ltac:(lia)) as Hs.
  assert (Hsec : d < 60000 ↔ d / 1000 < 60).
  { split; intros H.
    - apply Z.div_lt_upper_bound; lia.
    - destruct (Z.lt_ge_cases d 60000); [done|].
      pose proof (Z.div_le_mono 60000 d 1000 ltac:(lia) ltac:(lia)) as Hd.
      change (60000 / 1000) with 60 in Hd. lia. }
  assert (Hdiv : ∀ c k, 0 < c → (d / c < k ↔ d < c * k)).
  { intros c k Hc. split; intros H.
    - destruct (Z.lt_ge_cases d (c * k)); [done|].
      assert (k ≤ d / c) by (apply Z.div_le_lower_bound; lia). lia.
    - apply Z.div_lt_upper_bound; lia. }
  assert (Hlow : ∀ c k, 0 < c → (k ≤ d / c ↔ c * k ≤ d)).
  { intros c k Hc. split; intros H.
    - destruct (Z.lt_ge_cases d (c * k)) as [Hlt|]; [|done].
      apply (Hdiv c k Hc) in Hlt. lia.
    - apply Z.div_le_lower_bound; lia. }
  repeat split.
  - intros H. apply Hsec in H. by destruct (Z.ltb_spec (d / 1000) 60); [|lia].
  - apply Hlow; lia.
  - assert (d / 60000 < 60) by (apply Hdiv; lia). lia.
  - destruct (Z.ltb_spec (d / 1000) 60) as [Hc|_]; [apply Hsec in Hc; lia|].
    destruct (Z.ltb_spec (d / 60000) 60) as [_|Hc]; [done|].
    assert (d / 60000 < 60) by (apply Hdiv; lia). lia.
  - apply Hlow; lia.
  - assert (d / 3600000 < 24) by (apply Hdiv; lia). lia.
  - destruct (Z.ltb_spec (d / 1000) 60) as [Hc|_]; [apply Hsec in Hc; lia|].
    destruct (Z.ltb_spec (d / 60000) 60) as [Hc|_];
      [apply Hdiv in Hc; lia|].
    destruct (Z.ltb_spec (d / 3600000) 24) as [_|Hc]; [done|].
    assert (d / 3600000 < 24) by (apply Hdiv; lia). lia.
  - intros [Hl Hu].
    destruct (Z.ltb_spec (d / 1000) 60) as [Hc|_]; [apply Hsec in Hc; lia|].
    destruct (Z.ltb_spec (d / 60000) 60) as [Hc|_];
      [apply Hdiv in Hc; lia|].
    destruct (Z.ltb_spec (d / 3600000) 24) as [Hc|_];
      [apply Hdiv in Hc; lia|].
    assert (Hone : d / 86400000 = 1).
    { assert (1 ≤ d / 86400000) by (apply Hlow; lia).
      assert (d / 86400000 < 2) by (apply Hdiv; lia). lia. }
    rewrite Hone. by vm_compute.
  - apply Hlow; lia.
  - assert (d / 86400000 < 7) by (apply Hdiv; lia). lia.
  - assert (Hd2 : 2 ≤ d / 86400000) by (apply Hlow; lia).
    assert (Hd7 : d / 86400000 < 7) by (apply Hdiv; lia).
    destruct (Z.ltb_spec (d / 1000) 60) as [Hc|_]; [apply Hsec in Hc; lia|].
    destruct (Z.ltb_spec (d / 60000) 60) as [Hc|_];
      [apply Hdiv in Hc; lia|].
    destruct (Z.ltb_spec (d / 3600000) 24) as [Hc|_];
      [apply Hdiv in Hc; lia|].
    destruct (Z.ltb_spec (d / 86400000) 7) as [_|Hc]; [|lia].
    destruct (Z.eqb_spec (d / 86400000) 1) as [Hc|_]; [lia|]. done.
  - intros Hl.
    destruct (Z.ltb_spec (d / 1000) 60) as [Hc|_]; [apply Hsec in Hc; lia|].
    destruct (Z.ltb_spec (d / 60000) 60) as [Hc|_];
      [apply Hdiv in Hc; lia|].
    destruct (Z.ltb_spec (d / 3600000) 24) as [Hc|_];
      [apply Hdiv in Hc; lia|].
    destruct (Z.ltb_spec (d / 86400000) 7) as [Hc|_];
      [apply Hdiv in Hc; lia|]. done.
Qed.

Lemma getTimeAgo_ranges_witness :
  Popup.getTimeAgo 1700000179999 1700000000000 "11/14/2023"
  = "2 min ago"%string.
Proof.
  destruct (getTimeAgo_ranges 1700000179999 1700000000000 "11/14/2023")
    as (_ & Hmin & _).
  destruct Hmin as [_ ->]; [lia|]. by vm_compute.
Defined.

(** ** Statistics *)

Lemma count_step_known (counts : Popup.Counts) (log : Background.LogEntry) :
  Background.permissionType log ∈ known_types →
  Popup.count_by_chain counts log = Popup.count_by_switch counts log ∧
  Popup.total (Popup.count_by_switch counts log) = S (Popup.total counts).
Proof.
  intros Hk. unfold Popup.count_by_chain, Popup.count_by_switch.
  destruct counts as [c m l b n]. unfold known_types in Hk.
  repeat (apply elem_of_cons in Hk as [->|Hk]); [..|by apply elem_of_nil in Hk];
    simpl; unfold Popup.total; simpl; split; try done; lia.
Qed.

Lemma count_step_total (counts : Popup.Counts) (log : Background.LogEntry) :
  (Popup.total counts ≤ Popup.total (Popup.count_by_chain counts log)
   ≤ S (Popup.total counts))%nat ∧
  (Popup.total counts ≤ Popup.total (Popup.count_by_switch counts log)
   ≤ S (Popup.total counts))%nat.
Proof.
  unfold Popup.count_by_chain, Popup.count_by_switch.
  destruct counts as [c m l b n].
  repeat match goal with
  | |- context [if ?b then _ else _] => destruct b
  end; unfold Popup.total; simpl; lia.
Qed.

Lemma counts_from (logs : list Background.LogEntry) (counts : Popup.Counts) :
  (Forall (λ log, Background.permissionType log ∈ known_types) logs →
   foldl Popup.count_by_chain counts logs
   = foldl Popup.count_by_switch counts logs ∧
   Popup.total (foldl Popup.count_by_switch counts logs)
   = (Popup.total counts + length logs)%nat) ∧
  (Popup.total (foldl Popup.count_by_chain counts logs)
   ≤ Popup.total counts + length logs)%nat ∧
  (Popup.total (foldl Popup.count_by_switch counts logs)
   ≤ Popup.total counts + length logs)%nat.
Proof.
  revert counts. induction logs as [|log rest IH]; intros counts.
  - simpl. split; [done | lia].
  - simpl. destruct (count_step_total counts log) as [Hc Hs].
    split; [|split].
    + intros Hall. apply Forall_cons in Hall as [Hk Hrest].
      destruct (count_step_known counts log Hk) as [Heq Htot].
      rewrite Heq. destruct (IH (Popup.count_by_switch counts log))
        as [Hsame _]. destruct (Hsame Hrest) as [-> ->]. split; [done | lia].
    + destruct (IH (Popup.count_by_chain counts log)) as (_ & Hle & _). lia.
    + destruct (IH (Popup.count_by_switch counts log)) as (_ & _ & Hle). lia.
Qed.

(** X16. The popup counts with a chain of comparisons that takes every type
    containing [clipboard] for a clipboard access, the dashboard with a
    [switch] on the exact types.  Both count every log at most once, so the
    five counters never add up to more than the number of logs; and on logs
    whose types are among the six the page script signals, the two agree and
    the counters add up to exactly the number of logs. *)
Theorem statistics_agree (logs : list Background.LogEntry) :
  (Popup.total (Popup.popupCounts logs) ≤ length logs)%nat ∧
  (Popup.total (Popup.dashboardCounts logs) ≤ length logs)%nat ∧
  (Forall (λ log, Background.permissionType log ∈ known_types) logs →
   Popup.popupCounts logs = Popup.dashboardCounts logs ∧
   Popup.total (Popup.dashboardCounts logs) = length logs).
Proof.
  unfold Popup.popupCounts, Popup.dashboardCounts.
  destruct (counts_from logs Popup.noCounts) as (Hknown & Hc & Hs).
  simpl in *. split; [done|]. split; [done|]. done.
Qed.

Lemma statistics_agree_witness :
  let log pt := Background.mkLogEntry "1" "t" "d" "example.org"
                  "https://example.org/" pt "accessed" emptyObject
                  (JSString "") (JSBool true) in
  Popup.popupCounts [log "clipboard-read"; log "location"; log "clipboard-write"]
  = Popup.mkCounts 0 0 1 2 0.
Proof.
  intros log.
  destruct (statistics_agree
              [log "clipboard-read"; log "location"; log "clipboard-write"])
    as (_ & _ & H).
  destruct H as [-> _]; [|by vm_compute].
  repeat constructor; apply (bool_decide_unpack _); by vm_compute.
Defined.

Lemma known_silent : known_out silent.
Proof. split; constructor. Qed.

Lemma known_out_app (o1 o2 : Output) :
  known_out o1 → known_out o2 → known_out (out_app o1 o2).
Proof. intros [? ?] [? ?]. split; simpl; by apply Forall_app. Qed.

Lemma known_call_if_present cb arg : known_out (call_if_present cb arg).
Proof. destruct cb; split; constructor. Qed.

Lemma known_dispatch (m : gmap string Z) (pt a : string) (now : Z) :
  pt ∈ known_types →
  Forall (λ d : Detail, permissionType d ∈ known_types)
    (notifyPermissionUsage m pt a now).2.
Proof.
  intros Hk. destruct (duplicate_dec m pt a now) as [Hd|Hd].
  - rewrite notify_duplicate by done. constructor.
  - rewrite notify_fresh by done. simpl. constructor; [done | constructor].
Qed.

Lemma known_notify (pg : Page) (pt a : string) (now : Z) :
  pt ∈ known_types → known_out (notify pg pt a now).2.
Proof.
  intros Hk. pose proof (notify_spec pg pt a now) as (_ & _ & Hs & _ & Hm).
  pose proof (known_dispatch (loggedEvents pg) pt a now Hk) as Hd.
  rewrite <- Hm in Hd. split; [|done]. rewrite Hs.
  constructor; [done | constructor].
Qed.

Ltac known_type := (apply (bool_decide_unpack _); vm_compute; exact I).

Ltac known_step :=
  repeat match goal with
  | H : context [notify ?pg ?pt ?a ?n] |- _ =>
      let Hk := fresh "Hk" in
      assert (Hk : known_out (notify pg pt a n).2)
        by (apply known_notify; known_type);
      destruct (notify pg pt a n) as [? ?]; simpl in Hk
  end.

(** X17. Every signal the page script makes, and so every event it
    dispatches, has one of six permission types: [camera], [microphone],
    [location], [clipboard-read], [clipboard-write], [notifications]. *)
Theorem signals_have_known_types (pg pg' : Page) (i : PageInput) (o : Output) :
  step pg i = Some (pg', o) →
  Forall (λ s : Signal, s.1 ∈ known_types) (signals o) ∧
  Forall (λ d : Detail, permissionType d ∈ known_types) (dispatched o).
Proof.
  intros Hstep. change (known_out o).
  destruct (is_position i) eqn:Hpos.
  - destruct (step_position pg i Hpos) as (h & pos & now & nowN & -> & Heq).
    rewrite Heq in Hstep.
    destruct (run_handler_cases _ _ _ _ _ _ _ Hstep)
      as [(Ha & _ & _ & Hm)|(Hs & Hd & _)].
    + split.
      * rewrite Ha. constructor; [simpl; known_type | constructor].
      * pose proof (known_dispatch (loggedEvents pg) "location" "accessed"
                      nowN ltac:(known_type)) as Hk.
        by rewrite <- Hm in Hk.
    + split; [rewrite Hs | rewrite Hd]; constructor.
  - destruct i; try done; simpl in Hstep;
      unfold getUserMedia, legacyGetUserMedia_success, notify_media,
        track_stopped, watchPosition, clearWatch, readText, read, writeText,
        write, Notification in Hstep;
      repeat match type of Hstep with
      | context [match ?x with _ => _ end] =>
          match type of x with
          | bool => destruct x eqn:?
          | Completion => destruct x
          | WatchResult => destruct x
          end
      end;
      known_step; simpl in Hstep; injection Hstep as <- <-;
      repeat first [ assumption | apply known_silent | apply known_out_app
                   | apply known_call_if_present ].
Qed.

Lemma signals_have_known_types_witness :
  Forall (λ d : Detail, permissionType d ∈ known_types)
    (dispatched (track_stopped initialPage "audio" 1700000000000).2).
Proof.
  apply (signals_have_known_types initialPage
           (track_stopped initialPage "audio" 1700000000000).1
           (InTrackStopped "audio" 1700000000000)).
  simpl. by destruct (track_stopped initialPage "audio" 1700000000000).
Defined.

(** ** Filters *)

Lemma prefix_app (n h : string) :
  String.prefix n h = true ↔ ∃ post, h = (n +:+ post)%string.
Proof.
  revert h. induction n as [|c n IH]; intros h.
  - split; [intros _; by exists h | by destruct h].
  - destruct h as [|c' h]; [split; [done | by intros (? & ?)]|]. simpl.
    destruct (Ascii.ascii_dec c c') as [->|Hne].
    + rewrite IH. split; intros (post & Hp); exists post; [by rewrite Hp|].
      by injection Hp.
    + split; [done|]. intros (post & Hp). by injection Hp.
Qed.

Lemma includes_spec (h n : string) :
  includes h n = true ↔ ∃ pre post, h = (pre +:+ n +:+ post)%string.
Proof.
  induction h as [|c h IH]; cbn [includes].
  - rewrite orb_false_r, prefix_app. split.
    + intros (post & Hp). by exists ""%string, post.
    + intros ([|? ?] & post & Hp); [by exists post | done].
  - rewrite orb_true_iff, IH. split.
    + intros [Hp|(pre & post & Hp)].
      * apply prefix_app in Hp as (post & Hp). by exists ""%string, post.
      * exists (String c pre), post. simpl. by rewrite Hp.
    + intros ([|c' pre] & post & Hp).
      * left. apply prefix_app. by exists post.
      * right. exists pre, post. simpl in Hp. by injection Hp.
Qed.

Lemma filter_sublist {A} (f : A → bool) (l : list A) :
  sublist (List.filter f l) l.
Proof.
  induction l as [|x l IH]; simpl; [constructor|].
  destruct (f x); by constructor.
Qed.

Lemma filter_idempotent {A} (f : A → bool) (l : list A) :
  List.filter f (List.filter f l) = List.filter f l.
Proof.
  induction l as [|x l IH]; simpl; [done|].
  destruct (f x) eqn:Hx; simpl; [by rewrite Hx, IH | done].
Qed.

(** X18. [applyFilters] shows a sublist of the logs, in their order: exactly
    the logs whose type is the selected one (any type for [all]) and whose
    lower-cased domain contains the lower-cased, trimmed search text (any
    domain for a blank search).  With [all] and a blank search it shows what
    [resetFilters] shows, and filtering what is shown again changes
    nothing. *)
Theorem applyFilters_spec (toLowerCase trim : string → string)
    (filterPermission searchDomain : string)
    (allLogs : list Background.LogEntry) :
  let shown :=
    Popup.applyFilters toLowerCase trim filterPermission searchDomain allLogs in
  let search := trim (toLowerCase searchDomain) in
  sublist shown allLogs ∧
  (∀ log,
     log ∈ shown
     ↔ log ∈ allLogs ∧
       (filterPermission = "all"%string
        ∨ Background.permissionType log = filterPermission) ∧
       (search = ""%string
        ∨ ∃ pre post,
            toLowerCase (Background.domain log)
            = (pre +:+ search +:+ post)%string)) ∧
  (filterPermission = "all"%string → search = ""%string →
   shown = Popup.resetFilters allLogs) ∧
  Popup.applyFilters toLowerCase trim filterPermission searchDomain shown
  = shown.
Proof.
  intros shown search. subst shown. unfold Popup.applyFilters. fold search.
  assert (Hkeeps : ∀ log,
            Popup.keeps toLowerCase filterPermission search log = true
            ↔ (filterPermission = "all"%string
               ∨ Background.permissionType log = filterPermission) ∧
              (search = ""%string
               ∨ ∃ pre post,
                   toLowerCase (Background.domain log)
                   = (pre +:+ search +:+ post)%string)).
  { intros log. unfold Popup.keeps. rewrite <- includes_spec.
    destruct (String.eqb_spec filterPermission "all"),
      (String.eqb_spec (Background.permissionType log) filterPermission),
      (String.eqb_spec search ""),
      (includes (toLowerCase (Background.domain log)) search);
      simpl; split; try done; try tauto; intros [[?|?] [?|?]]; done. }
  split; [apply filter_sublist|]. split; [|split].
  - intros log. rewrite !list_elem_of_In, filter_In, Hkeeps. done.
  - intros Hall Hblank. unfold Popup.resetFilters.
    induction allLogs as [|log rest IH]; simpl; [done|].
    assert (Hk : Popup.keeps toLowerCase filterPermission search log = true)
      by (apply Hkeeps; split; by left).
    by rewrite Hk, IH.
  - apply filter_idempotent.
Qed.

Lemma applyFilters_spec_witness :
  let log pt dom := Background.mkLogEntry "1" "t" "d" dom "https://x/" pt
                      "accessed" emptyObject (JSString "") (JSBool true) in
  Popup.applyFilters (λ s, s) (λ s, s) "all" ""
    [log "camera" "a.example"; log "location" "b.example"]
  = [log "camera" "a.example"; log "location" "b.example"].
Proof.
  intros log.
  destruct (applyFilters_spec (λ s, s) (λ s, s) "all" ""
              [log "camera" "a.example"; log "location" "b.example"])
    as (_ & _ & H & _).
  exact (H eq_refl eq_refl).
Defined.

(** * One-shot queries only *)

Lemma one_shot_run_spaced (inputs : list PageInput) :
  ∀ (pg pg' : Page) (outs : list Output),
    run pg inputs = Some (pg', outs) →
    Forall (λ i, no_watch_callback i = true) inputs →
    Forall clock_not_epoch inputs →
    lastLogTime (locationTracking pg) ≠ 0 →
    spaced_from (lastLogTime (locationTracking pg)) (accept_times inputs outs).
Proof.
  induction inputs as [|i rest IH]; intros pg pg' outs Hrun Hnw Hclk Hnz.
  - injection Hrun as <- <-. done.
  - simpl in Hrun.
    destruct (step pg i) as [[pg1 o]|] eqn:Hstep; [|done]. simpl in Hrun.
    destruct (run pg1 rest) as [[pg2 os]|] eqn:Hrest; [|done].
    injection Hrun as <- <-.
    apply Forall_cons in Hnw as [Hi Hnw]. apply Forall_cons in Hclk as [Hc Hclk].
    destruct (is_position i) eqn:Hpos.
    + destruct (step_position pg i Hpos) as (h & pos & now & nowN & -> & Heq).
      rewrite Heq in Hstep. destruct h as [cb|cell cb]; [|done].
      simpl in Hc. simpl. unfold location_acceptedb. case_bool_decide as Ha.
      * destruct (run_handler_cases _ _ _ _ _ _ _ Hstep)
          as [(_ & Hu & Hlt & _)|(Hs & _)]; [|by rewrite Hs in Ha].
        assert (Hlast : lastLogTime (locationTracking pg1) = now)
          by (by rewrite Hlt).
        split.
        -- simpl in Hstep. injection Hstep as Hstep.
           destruct (within_restore_window (locationTracking pg) now) eqn:Hw.
           { exfalso. unfold getCurrentPosition_success in Hstep.
             rewrite Hu, Hw in Hstep. injection Hstep as _ <-.
             destruct (call_if_present_quiet cb pos) as [Hq _].
             by rewrite Hq in Ha. }
           destruct (one_shot_rule pg cb pos now nowN Hu Hw) as (Hiff & _).
           rewrite Hstep in Hiff. simpl in Hiff.
           destruct (proj1 Hiff Ha); [done | lia].
        -- rewrite <- Hlast. apply (IH pg1 pg2 os); try done. by rewrite Hlast.
      * assert (Hsame : lastLogTime (locationTracking pg1)
                        = lastLogTime (locationTracking pg)).
        { destruct (run_handler_cases _ _ _ _ _ _ _ Hstep)
            as [(Ha' & _)|(_ & _ & Hlt & _)]; [done | by rewrite Hlt]. }
        rewrite <- Hsame. apply (IH pg1 pg2 os); try done. by rewrite Hsame.
    + pose proof (step_other _ _ _ _ Hpos Hstep) as (Hsame & _).
      assert (Hacc : accept_times (i :: rest) (o :: os) = accept_times rest os)
        by (by destruct i).
      rewrite Hacc, <- Hsame. apply (IH pg1 pg2 os); try done. by rewrite Hsame.
Qed.

(** X19. On a page that asks for the position with one-shot queries only,
    the location signals the rule accepts are at least 5000ms apart: in any
    run without callbacks of a watch (clock reads other than the epoch),
    every accepted callback after the first comes 5000ms or more after the
    accepted one before it. *)
Theorem one_shot_acceptances_are_spaced (inputs : list PageInput)
    (pg' : Page) (outs : list Output) :
  run initialPage inputs = Some (pg', outs) →
  Forall (λ i, no_watch_callback i = true) inputs →
  Forall clock_not_epoch inputs →
  match accept_times inputs outs with
  | [] => True
  | first :: later => spaced_from first later
  end.
Proof.
  revert pg' outs.
  assert (Hgen : ∀ (inputs : list PageInput) (pg pg' : Page) (outs : list Output),
            lastLogTime (locationTracking pg) = 0 →
            run pg inputs = Some (pg', outs) →
            Forall (λ i, no_watch_callback i = true) inputs →
            Forall clock_not_epoch inputs →
            match accept_times inputs outs with
            | [] => True
            | first :: later => spaced_from first later
            end).
  { clear inputs. induction inputs as [|i rest IH];
      intros pg pg' outs Hz Hrun Hnw Hclk.
    - injection Hrun as <- <-. done.
    - simpl in Hrun.
      destruct (step pg i) as [[pg1 o]|] eqn:Hstep; [|done]. simpl in Hrun.
      destruct (run pg1 rest) as [[pg2 os]|] eqn:Hrest; [|done].
      injection Hrun as <- <-.
      apply Forall_cons in Hnw as [Hi Hnw].
      apply Forall_cons in Hclk as [Hc Hclk].
      destruct (is_position i) eqn:Hpos.
      + destruct (step_position pg i Hpos) as (h & pos & now & nowN & -> & Heq).
        rewrite Heq in Hstep. simpl in Hc. simpl.
        unfold location_acceptedb. case_bool_decide as Ha.
        * destruct (run_handler_cases _ _ _ _ _ _ _ Hstep)
            as [(_ & _ & Hlt & _)|(Hs & _)]; [|by rewrite Hs in Ha].
          assert (Hlast : lastLogTime (locationTracking pg1) = now)
            by (by rewrite Hlt).
          rewrite <- Hlast.
          apply (one_shot_run_spaced rest pg1 pg2 os); try done.
          by rewrite Hlast.
        * assert (Hsame : lastLogTime (locationTracking pg1) = 0).
          { destruct (run_handler_cases _ _ _ _ _ _ _ Hstep)
              as [(Ha' & _)|(_ & _ & Hlt & _)]; [done | by rewrite Hlt]. }
          by apply (IH pg1 pg2 os).
      + pose proof (step_other _ _ _ _ Hpos Hstep) as (Hsame & _).
        assert (Hacc : accept_times (i :: rest) (o :: os)
                       = accept_times rest os) by (by destruct i).
        rewrite Hacc. apply (IH pg1 pg2 os); try done. by rewrite Hsame. }
  intros pg' outs. by apply Hgen.
Qed.

Lemma one_shot_acceptances_are_spaced_witness :
  let inputs :=
    [InPosition (OneShotHandler None) (JSObject 1) 1700000000000 1700000000000;
     InPosition (OneShotHandler None) (JSObject 2) 1700000002000 1700000002000;
     InPosition (OneShotHandler None) (JSObject 3) 1700000005000 1700000005000]
  in
  ∃ pg' outs,
    run initialPage inputs = Some (pg', outs) ∧
    accept_times inputs outs = [1700000000000; 1700000005000] ∧
    spaced_from 1700000000000 [1700000005000].
Proof.
  intros inputs. eexists _, _. split; [reflexivity|]. split; [by vm_compute|].
  lazymatch goal with
  | |- spaced_from _ _ =>
      exact (one_shot_acceptances_are_spaced inputs _ _ eq_refl
               ltac:(by repeat constructor) ltac:(by repeat constructor))
  end.
Defined.

(** * The worker with handlers in flight *)

Lemma act_last (st : Background.State) (p : list Async.Task) (t : Async.Task)
    (now : Z) :
  Async.act (Async.mkSystem st (p ++ [t])) (Async.Advance (length p) now)
  = (Async.mkSystem (Async.advance st t now).1.1
       (p ++ [(Async.advance st t now).1.2]),
     (Async.advance st t now).2).
Proof.
  unfold Async.act. simpl.
  rewrite lookup_app_r, Nat.sub_diag by lia. simpl.
  destruct (Async.advance st t now) as [[st' t'] evs]. simpl.
  rewrite insert_app_r_alt, Nat.sub_diag by lia. done.
Qed.

Lemma saveLogOf_list {A} (logs : option (list A)) (e : A) :
  from_option (λ l, l) [] (saveLogOf logs e)
  = take 1000 (e :: match logs with Some l => l | None => [] end).
Proof. by rewrite saveLogOf_take. Qed.

Lemma exec_cons (sys : Async.System) (a : Async.Action)
    (rest : list Async.Action) :
  Async.exec sys (a :: rest)
  = ((Async.exec (Async.act sys a).1 rest).1,
     (Async.act sys a).2 :: (Async.exec (Async.act sys a).1 rest).2).
Proof.
  cbn [Async.exec]. destruct (Async.act sys a) as [sys1 events].
  cbn [fst snd]. by destruct (Async.exec sys1 rest).
Qed.

Lemma alerts_of_Alerted (alerts : list Background.Alert) :
  Async.alerts_of (map Async.Alerted alerts) = alerts.
Proof.
  induction alerts as [|a l IH]; [done|].
  change (a :: Async.alerts_of (map Async.Alerted l) = a :: l). by rewrite IH.
Qed.

Lemma responses_of_Alerted (alerts : list Background.Alert) :
  Async.responses_of (map Async.Alerted alerts) = [].
Proof. induction alerts as [|a l IH]; [done|]. exact IH. Qed.

Ltac step_last :=
  rewrite exec_cons, act_last; cbn [Async.advance fst snd].

(** X21. Run without interruption, a handler in flight does what the
    sequential reading of the worker says: for every message, the arrival
    followed by the steps of its handler alone leaves the worker in the
    state [onMessage] gives, with the same answer and the same
    notifications, and the handler ended. *)
Theorem uninterrupted_schedule_is_onMessage (sys : Async.System)
    (message : Background.Message) (env : Background.Env) :
  let k := length (Async.pool sys) in
  let r := Async.exec sys
             (Async.Arrive message env
              :: replicate 5 (Async.Advance k (Background.now env))) in
  let sequential := Background.onMessage (Async.shared sys) message env in
  Async.shared r.1 = sequential.1.1 ∧
  Async.pool r.1 = Async.pool sys ++ [Async.Done] ∧
  Async.alerts_of (concat r.2) = sequential.2 ∧
  Async.responses_of (concat r.2)
  = match sequential.1.2 with
    | Background.NoResponse => []
    | response => [response]
    end.
Proof.
  destruct sys as [st p]. cbv zeta. cbn [replicate Async.shared Async.pool].
  rewrite exec_cons.
  destruct message as [data| | | |s| |ty];
    cbn [Async.act Async.arrive Async.shared Async.pool fst snd].
  - do 5 step_last.
    unfold Background.onMessage, Background.handlePermissionUsage,
      Background.saveLog.
    fold (Async.logEntryOf data env).
    rewrite saveLogOf_list, saveLogOf_take.
    change (Background.getSettings (Background.updateBadge _))
      with (Background.getSettings st).
    change (Background.getSettings (Background.mkState _ _ _ _ _))
      with (Background.getSettings st).
    destruct (Background.not_false _); [|done].
    cbn [Background.notificationTracker Background.updateBadge].
    destruct (Background.showNotification _ _ _) as [tracker alerts].
    cbn [fst snd concat]. rewrite !app_nil_r, !app_nil_l.
    rewrite alerts_of_Alerted, responses_of_Alerted. done.
  - do 5 step_last. done.
  - do 5 step_last. done.
  - do 5 step_last. done.
  - do 5 step_last. done.
  - do 5 step_last. done.
  - do 5 step_last. done.
Qed.

Lemma uninterrupted_schedule_is_onMessage_witness :
  let data := Content.mkLogData "camera" "example.org" "https://example.org/"
                "2026-01-01T00:00:00.000Z" "active" emptyObject (JSString "")
                (JSBool true) in
  let env := Background.mkEnv "a" "d" 1700000000000 in
  let sys := Async.mkSystem (Background.startState None None) [] in
  length (Background.getLogs
            (Async.shared
               (Async.exec sys
                  (Async.Arrive (Background.PERMISSION_USAGE data) env
                   :: replicate 5 (Async.Advance 0 1700000000000))).1))
  = 1%nat.
Proof.
  intros data env sys.
  destruct (uninterrupted_schedule_is_onMessage sys
              (Background.PERMISSION_USAGE data) env) as [Hs _].
  etrans; [exact (f_equal (λ st, length (Background.getLogs st)) Hs)|].
  by vm_compute.
Defined.

(** ** What other handlers cannot change of a handler in flight *)

Lemma act_leaves_alone (sys : Async.System) (a : Async.Action) (k : nat)
    (t : Async.Task) :
  Async.leaves_alone k a →
  Async.pool sys !! k = Some t →
  Async.pool (Async.act sys a).1 !! k = Some t.
Proof.
  intros Ha Hk. destruct a as [message env|j now]; simpl.
  - destruct message; simpl; by apply lookup_app_l_Some.
  - simpl in Ha. destruct (Async.pool sys !! j) as [tj|]; [|done].
    destruct (Async.advance (Async.shared sys) tj now) as [[st' t'] evs].
    simpl. by rewrite list_lookup_insert_ne.
Qed.

Lemma exec_leaves_alone (between : list Async.Action) (sys : Async.System)
    (k : nat) (t : Async.Task) :
  Forall (Async.leaves_alone k) between →
  Async.pool sys !! k = Some t →
  Async.pool (Async.exec sys between).1 !! k = Some t.
Proof.
  revert sys. induction between as [|a rest IH]; intros sys Hall Hk; [done|].
  apply Forall_cons in Hall as [Ha Hrest]. rewrite exec_cons. simpl.
  apply IH; [done|]. by apply act_leaves_alone.
Qed.

Lemma act_advance (sys : Async.System) (k : nat) (t : Async.Task) (now : Z) :
  Async.pool sys !! k = Some t →
  Async.act sys (Async.Advance k now)
  = (Async.mkSystem (Async.advance (Async.shared sys) t now).1.1
       (<[k := (Async.advance (Async.shared sys) t now).1.2]> (Async.pool sys)),
     (Async.advance (Async.shared sys) t now).2).
Proof.
  intros Hk. unfold Async.act. rewrite Hk.
  by destruct (Async.advance (Async.shared sys) t now) as [[st' t'] evs].
Qed.

(** X10. A usage handler among other handlers in flight.  Whatever the
    other handlers do between its storage read and its storage write, after
    the write the store holds its entry in front of the first 999 of the
    entries that were stored when its read took effect, so what others wrote
    in between is lost, and with nothing in between nothing is lost.  Its
    continuation adds exactly one to the counter of unseen logs in whatever
    state it runs.  It reads the settings as stored at that moment, and
    creates at most one notification: exactly when the settings it read have
    [notificationsEnabled] other than [false] and the type and domain are
    not in their cooldown when it resumes. *)
Theorem usage_handler_among_others (sys : Async.System) (k : nat)
    (e : Background.LogEntry) (now : Z) :
  (Async.pool sys !! k = Some (Async.UsageGetLogs e) →
   ∀ between now',
     Forall (Async.leaves_alone k) between →
     let afterRead := (Async.act sys (Async.Advance k now)).1 in
     let meanwhile := (Async.exec afterRead between).1 in
     let afterWrite := (Async.act meanwhile (Async.Advance k now')).1 in
     Background.getLogs (Async.shared afterWrite)
     = e :: take 999 (Background.getLogs (Async.shared sys)) ∧
     Async.pool afterWrite !! k = Some (Async.UsageSaved e)) ∧
  (Async.pool sys !! k = Some (Async.UsageSaved e) →
   let after := (Async.act sys (Async.Advance k now)).1 in
   Background.newLogsCount (Async.shared after)
   = Background.newLogsCount (Async.shared sys) + 1 ∧
   Background.logs (Async.shared after) = Background.logs (Async.shared sys) ∧
   Async.pool after !! k = Some (Async.UsageGetSettings e)) ∧
  (Async.pool sys !! k = Some (Async.UsageGetSettings e) →
   let after := (Async.act sys (Async.Advance k now)).1 in
   Async.shared after = Async.shared sys ∧
   Async.pool after !! k
   = Some (Async.UsageSettings e
             (Background.getSettings (Async.shared sys)))) ∧
  (∀ settings,
     Async.pool sys !! k = Some (Async.UsageSettings e settings) →
     let alerts := Async.alerts_of (Async.act sys (Async.Advance k now)).2 in
     (alerts = []
      ∨ alerts = [(Background.permissionType e, Background.domain e)]) ∧
     (alerts ≠ []
      ↔ Background.notificationsEnabled settings ≠ JSBool false
        ∧ ¬ in_cooldown
              (Background.notificationTracker (Async.shared sys)) e now)).
Proof.
  split; [|split; [|split]].
  - intros Hk between now' Hall. cbv zeta.
    rewrite (act_advance sys k _ now Hk). cbn [Async.advance fst snd].
    set (afterRead := Async.mkSystem _ _).
    assert (Hk1 : Async.pool afterRead !! k
                  = Some (Async.UsageSetLogs e
                            (from_option (λ l, l) []
                               (saveLogOf (Background.logs (Async.shared sys)) e)))).
    { simpl. apply list_lookup_insert_eq. by eapply lookup_lt_Some. }
    pose proof (exec_leaves_alone between afterRead k _ Hall Hk1) as Hk2.
    rewrite (act_advance _ k _ now' Hk2). cbn [Async.advance fst snd].
    rewrite saveLogOf_list. split; [done|].
    apply list_lookup_insert_eq. by eapply lookup_lt_Some.
  - intros Hk. cbv zeta. rewrite (act_advance sys k _ now Hk).
    cbn [Async.advance fst snd]. simpl. split; [done|]. split; [done|].
    apply list_lookup_insert_eq. by eapply lookup_lt_Some.
  - intros Hk. cbv zeta. rewrite (act_advance sys k _ now Hk).
    cbn [Async.advance fst snd]. simpl. split; [done|].
    apply list_lookup_insert_eq. by eapply lookup_lt_Some.
  - intros settings Hk. cbv zeta. rewrite (act_advance sys k _ now Hk).
    cbn [Async.advance].
    assert (Hnf : Background.not_false
                    (Background.notificationsEnabled settings) = true
                  ↔ Background.notificationsEnabled settings ≠ JSBool false).
    { destruct (Background.notificationsEnabled settings) as [| |[|]| | | |];
        simpl; split; done. }
    destruct (Background.not_false _).
    + destruct (in_cooldown_dec
                  (Background.notificationTracker (Async.shared sys)) e now)
        as [Hc|Hc].
      * rewrite showNotification_in_cooldown by done. simpl.
        split; [by left|]. split; [done|]. by intros [_ ?].
      * rewrite showNotification_shown by done. simpl.
        split; [by right|]. split; [|done]. intros _. split; [|done].
        by apply Hnf.
    + simpl. split; [by left|]. split; [done|]. intros [Hen _].
      apply Hnf in Hen. done.
Qed.

(** One grant of camera and microphone, its two messages in flight at once:
    both handlers read the empty store before either writes, and the store
    is left with the entry of the handler that wrote last; both are
    counted. *)
Lemma usage_handler_among_others_witness :
  let camera := Content.mkLogData "camera" "example.org" "https://example.org/"
                  "2026-01-01T00:00:00.000Z" "active" emptyObject
                  (JSString "") (JSBool true) in
  let microphone :=
    Content.mkLogData "microphone" "example.org" "https://example.org/"
      "2026-01-01T00:00:00.000Z" "active" emptyObject (JSString "")
      (JSBool true) in
  let env := Background.mkEnv "a" "d" 1700000000000 in
  let sys :=
    (Async.exec (Async.mkSystem (Background.startState None None) [])
       [Async.Arrive (Background.PERMISSION_USAGE camera) env;
        Async.Arrive (Background.PERMISSION_USAGE microphone) env;
        Async.Advance 0 1700000000000]).1 in
  let final :=
    (Async.exec sys
       [Async.Advance 1 1700000000000; Async.Advance 0 1700000000000;
        Async.Advance 1 1700000000000]).1 in
  Background.getLogs (Async.shared final)
  = [Async.logEntryOf microphone env].
Proof.
  intros camera microphone env sys final.
  destruct (usage_handler_among_others sys 1 (Async.logEntryOf microphone env)
              1700000000000) as [Hwrite _].
  destruct (Hwrite eq_refl [Async.Advance 0 1700000000000] 1700000000000)
    as [Hlogs _]; [by repeat constructor|].
  exact Hlogs.
Defined.

(** ** Notifications switched off *)





(** ** The badge and the bound of the store, handlers interleaving *)

Lemma advance_ok (st : Background.State) (t : Async.Task) (now : Z) :
  worker_ok st → Async.bounded_task t →
  worker_ok (Async.advance st t now).1.1 ∧
  Async.bounded_task (Async.advance st t now).1.2.
Proof.
  intros (Hpos & Hbadge & Hlen) Hb. unfold worker_ok.
  destruct t; cbn [Async.advance fst snd]; try done.
  - split; [done|]. unfold Async.bounded_task.
    rewrite saveLogOf_list, length_take. lia.
  - simpl. split; [|done]. split; [lia|]. split; [|done].
    apply badge_text_badge_of.
  - destruct (Background.not_false _); [|done].
    by destruct (Background.showNotification _ _ _).
  - simpl. split; [|done]. split; [done|]. split; [done | lia].
Qed.

(** X22. However messages arrive and their handlers interleave, from a
    consistent state with no handler about to write more than 1000 entries
    (a worker that starts with at most 1000 entries stored and no handler in
    flight is in one): the counter of unseen logs is never negative, the
    badge shows it ([99+] beyond 99, nothing for 0), and the store never
    holds more than 1000 entries. *)
Theorem interleaving_keeps_worker_consistent (schedule : list Async.Action)
    (sys : Async.System) :
  worker_ok (Async.shared sys) →
  Forall Async.bounded_task (Async.pool sys) →
  let final := (Async.exec sys schedule).1 in
  worker_ok (Async.shared final) ∧
  Forall Async.bounded_task (Async.pool final).
Proof.
  revert sys. induction schedule as [|a rest IH]; intros sys Hok Hpool.
  - simpl. by split.
  - cbv zeta. rewrite exec_cons. simpl. apply IH.
    + destruct a as [message env|k now]; simpl.
      * destruct message; try done. simpl.
        destruct Hok as (Hpos & Hbadge & Hlen). split; [done|]. done.
      * destruct (Async.pool sys !! k) as [t|] eqn:Hk; [|done].
        assert (Hb : Async.bounded_task t).
        { rewrite Forall_forall in Hpool. apply Hpool.
          by eapply list_elem_of_lookup_2. }
        destruct (advance_ok (Async.shared sys) t now Hok Hb) as [Hok' _].
        by destruct (Async.advance (Async.shared sys) t now) as [[st' t'] evs].
    + destruct a as [message env|k now]; simpl.
      * destruct message; simpl; apply Forall_app; split; try done;
          by repeat constructor.
      * destruct (Async.pool sys !! k) as [t|] eqn:Hk; [|done].
        assert (Hb : Async.bounded_task t).
        { rewrite Forall_forall in Hpool. apply Hpool.
          by eapply list_elem_of_lookup_2. }
        destruct (advance_ok (Async.shared sys) t now Hok Hb) as [_ Hb'].
        destruct (Async.advance (Async.shared sys) t now) as [[st' t'] evs].
        simpl in *. by apply Forall_insert.
Qed.

Lemma interleaving_keeps_worker_consistent_witness :
  let camera := Content.mkLogData "camera" "example.org" "https://example.org/"
                  "2026-01-01T00:00:00.000Z" "active" emptyObject
                  (JSString "") (JSBool true) in
  let env := Background.mkEnv "a" "d" 1700000000000 in
  worker_ok
    (Async.shared
       (Async.exec (Async.mkSystem (Background.startState None None) [])
          [Async.Arrive (Background.PERMISSION_USAGE camera) env;
           Async.Arrive Background.CLEAR_LOGS env;
           Async.Advance 0 1; Async.Advance 1 1; Async.Advance 0 1;
           Async.Advance 1 1; Async.Advance 0 1]).1).
Proof.
  intros camera env.
  apply (interleaving_keeps_worker_consistent _
           (Async.mkSystem (Background.startState None None) [])).
  - split; [done|]. split; [done | simpl; lia].
  - constructor.
Defined.
